(** * Segmentation of VBPL legal documents: [VBPLCrawler.parse]

    A shallow embedding of [app/utils/crawl.py].  Python [str] values are
    lists of Unicode code points; the four boundary patterns and the two
    cleaning patterns of [parse] are written as terms of a small pattern
    syntax and run by a backtracking matcher that follows the priority
    order of Python's [re] module (greedy and lazy repetition, ordered
    alternation, capturing groups, lookahead, [\Z], [re.IGNORECASE]).
    The second part covers page retrieval ([crawl_toanvan],
    [crawl_luocdo]) and metadata extraction ([extract_info]), with the
    pages as the accessors of the code see them. *)

From Stdlib Require Import NArith Lia.
From stdpp Require Import gmap strings list.

Set Default Proof Using "Type".
Open Scope N_scope.

(** ** Python strings *)

(** A Python [str] is modelled as [list N]: its sequence of code points. *)

(** Decoding of a UTF-8 source literal into code points (used to write the
    text that appears in the Python source and in the examples). *)
Fixpoint utf8_decode (bs : list N) : list N :=
  match bs with
  | [] => []
  | b :: bs1 =>
    if b <? 0x80 then b :: utf8_decode bs1
    else if b <? 0xE0 then
      match bs1 with
      | b1 :: bs2 => ((b - 0xC0) * 64 + (b1 - 0x80)) :: utf8_decode bs2
      | _ => []
      end
    else if b <? 0xF0 then
      match bs1 with
      | b1 :: b2 :: bs3 =>
        ((b - 0xE0) * 4096 + (b1 - 0x80) * 64 + (b2 - 0x80)) :: utf8_decode bs3
      | _ => []
      end
    else
      match bs1 with
      | b1 :: b2 :: b3 :: bs4 =>
        ((b - 0xF0) * 262144 + (b1 - 0x80) * 4096 + (b2 - 0x80) * 64 + (b3 - 0x80))
          :: utf8_decode bs4
      | _ => []
      end
  end.

Definition py (s : string) : list N :=
  utf8_decode (map Ascii.N_of_ascii (String.list_ascii_of_string s)).

(** The newline character ["\n"]. *)
Definition nl : list N := [0x0A].

(** [str.isspace] on one code point; the same table backs [\s] in [re]
    for [str] patterns. *)
Definition isspace (c : N) : bool :=
  ((0x09 <=? c) && (c <=? 0x0D)) || ((0x1C <=? c) && (c <=? 0x20))
  || (c =? 0x85) || (c =? 0xA0) || (c =? 0x1680)
  || ((0x2000 <=? c) && (c <=? 0x200A))
  || (c =? 0x2028) || (c =? 0x2029) || (c =? 0x202F) || (c =? 0x205F)
  || (c =? 0x3000).

Fixpoint lstrip (s : list N) : list N :=
  match s with
  | c :: s' => if isspace c then lstrip s' else s
  | [] => []
  end.

Definition rstrip (s : list N) : list N := reverse (lstrip (reverse s)).

(** [s.strip()] *)
Definition strip (s : list N) : list N := rstrip (lstrip s).

Fixpoint startswith (s p : list N) {struct p} : bool :=
  match p, s with
  | [], _ => true
  | a :: p', b :: s' => (a =? b) && startswith s' p'
  | _ :: _, [] => false
  end.

(** Left-to-right scan of [str.replace] for a non-empty [old]: at an
    occurrence of [old] emit [new] and jump over it ([skip] counts the
    characters of the occurrence still to be jumped). *)
Fixpoint replace_scan (old new : list N) (skip : nat) (s : list N) : list N :=
  match s with
  | [] => []
  | c :: s' =>
    match skip with
    | S n => replace_scan old new n s'
    | O =>
      if startswith s old
      then new ++ replace_scan old new (length old - 1) s'
      else c :: replace_scan old new 0 s'
    end
  end.

(** [s.replace(old, new)]: every non-overlapping occurrence, leftmost
    first; an empty [old] matches between all characters. *)
Definition replace (s old new : list N) : list N :=
  match old with
  | [] => new ++ flat_map (fun c => c :: new) s
  | _ :: _ => replace_scan old new 0 s
  end.

(** ** The [re] module *)

(** Pattern syntax, as far as the patterns of [parse] use it.  Repetition
    is only ever applied to a single-character class in the source. *)
Inductive regex : Type :=
| Lit (w : list N)              (* literal text *)
| In (cls : N -> bool)          (* one character of a class *)
| Seq (r1 r2 : regex)
| Alt (r1 r2 : regex)           (* r1|r2 *)
| Star (cls : N -> bool)        (* c*  *)
| StarLazy (cls : N -> bool)    (* c*? *)
| Group (n : nat) (r : regex)   (* ( ... ), numbered from 1 *)
| LookAhead (r : regex)         (* (?= ... ) *)
| EndZ.                         (* \Z *)

Definition Plus (cls : N -> bool) : regex := Seq (In cls) (Star cls).
Definition PlusLazy (cls : N -> bool) : regex := Seq (In cls) (StarLazy cls).

Declare Scope re_scope.
Delimit Scope re_scope with re.
Bind Scope re_scope with regex.
Infix "⋅" := Seq (at level 40, left associativity) : re_scope.
Infix "∣" := Alt (at level 50, left associativity) : re_scope.

(** Character classes. *)
Definition any (_ : N) : bool := true.                        (* [\s\S] *)
Definition digit (c : N) : bool := (0x30 <=? c) && (c <=? 0x39).  (* [0-9] *)
Definition one_of (w : list N) (c : N) : bool := existsb (N.eqb c) w.
Definition is_chr (a : N) (c : N) : bool := c =? a.

(** Characters that a literal pattern character matches under
    [re.IGNORECASE]: those with the same simple lower-case mapping, plus
    the extra equivalences of [re] (dotless i for i).  The table covers the
    cased letters that occur in the patterns of [parse]. *)
Definition ignorecase_variants (p : N) : list N :=
  if p =? 0x110 then [0x110; 0x111]             (* Đ *)
  else if p =? 0x69 then [0x49; 0x69; 0x130; 0x131]  (* i *)
  else if p =? 0x1EC1 then [0x1EC0; 0x1EC1]     (* ề *)
  else if p =? 0x75 then [0x55; 0x75]           (* u *)
  else if p =? 0x4D then [0x4D; 0x6D]           (* M *)
  else if p =? 0x1EE5 then [0x1EE4; 0x1EE5]     (* ụ *)
  else if p =? 0x63 then [0x43; 0x63]           (* c *)
  else [p].

Definition chr_match (ignorecase : bool) (p c : N) : bool :=
  if ignorecase then one_of (ignorecase_variants p) c else c =? p.

(** Captured groups are kept in a [gmap nat (list N)]: group number to
    captured text. *)

Section Matcher.
Variable ignorecase : bool.

(** [lit_rest w s]: what is left of [s] after the literal [w]. *)
Fixpoint lit_rest (w s : list N) : option (list N) :=
  match w, s with
  | [], _ => Some s
  | p :: w', c :: s' => if chr_match ignorecase p c then lit_rest w' s' else None
  | _ :: _, [] => None
  end.

(** Greedy repetition: take as many as possible, give back one at a
    time. *)
Fixpoint star_greedy {R} (cls : N -> bool) (s : list N)
    (k : list N -> option R) : option R :=
  match s with
  | c :: s' =>
    if cls c then
      match star_greedy cls s' k with
      | Some x => Some x
      | None => k s
      end
    else k s
  | [] => k s
  end.

(** Lazy repetition: take as few as possible, add one at a time. *)
Fixpoint star_lazy {R} (cls : N -> bool) (s : list N)
    (k : list N -> option R) : option R :=
  match k s with
  | Some x => Some x
  | None =>
    match s with
    | c :: s' => if cls c then star_lazy cls s' k else None
    | [] => None
    end
  end.

(** The backtracking matcher: [re_match r s caps k] matches [r] at the
    head of [s] and passes the rest and the captures to [k]; when [k]
    fails the next alternative in priority order is tried. *)
Fixpoint re_match (r : regex) (s : list N) (caps : gmap nat (list N))
    (k : list N -> gmap nat (list N) -> option (list N * gmap nat (list N)))
    : option (list N * gmap nat (list N)) :=
  match r with
  | Lit w =>
    match lit_rest w s with
    | Some s' => k s' caps
    | None => None
    end
  | In cls =>
    match s with
    | c :: s' => if cls c then k s' caps else None
    | [] => None
    end
  | Seq r1 r2 => re_match r1 s caps (fun s' caps' => re_match r2 s' caps' k)
  | Alt r1 r2 =>
    match re_match r1 s caps k with
    | Some x => Some x
    | None => re_match r2 s caps k
    end
  | Star cls => star_greedy cls s (fun s' => k s' caps)
  | StarLazy cls => star_lazy cls s (fun s' => k s' caps)
  | Group n r1 =>
    re_match r1 s caps
      (fun s' caps' => k s' (<[n := take (length s - length s') s]> caps'))
  | LookAhead r1 =>
    match re_match r1 s caps (fun s' caps' => Some (s', caps')) with
    | Some (_, caps') => k s caps'
    | None => None
    end
  | EndZ =>
    match s with
    | [] => k s caps
    | _ :: _ => None
    end
  end.
End Matcher.

(** A compiled pattern: [re.compile(pattern, flags)]. *)
Record Pattern : Type := re_compile { pattern : regex; IGNORECASE : bool }.

(** A match object: where it starts (relative to the scanned text), the
    matched text [group(0)] and the captured groups. *)
Record Match : Type := mkMatch {
  m_start : nat;
  group0 : list N;
  m_groups : gmap nat (list N)
}.

(** [m.group(n)] for [n >= 1]; as in the tuples of [findall], a group
    that took no part in the match reads as the empty string. *)
Definition group (mt : Match) (n : nat) : list N := default [] (m_groups mt !! n).

(** A match attempt anchored at the head of [s]: the matched prefix and
    the groups. *)
Definition match_here (p : Pattern) (s : list N)
    : option (list N * gmap nat (list N)) :=
  match re_match (IGNORECASE p) (pattern p) s ∅ (fun s' caps => Some (s', caps)) with
  | Some (s', caps) => Some (take (length s - length s') s, caps)
  | None => None
  end.

(** [p.search(s)]: the match at the leftmost position that has one. *)
Fixpoint search_from (p : Pattern) (pos : nat) (s : list N) : option Match :=
  match match_here p s with
  | Some (w, caps) => Some (mkMatch pos w caps)
  | None =>
    match s with
    | _ :: s' => search_from p (S pos) s'
    | [] => None
    end
  end.

Definition search (p : Pattern) (s : list N) : option Match := search_from p 0 s.

(** [p.finditer(s)]: successive non-overlapping matches, left to right.
    After a match the scan resumes where the match ended ([skip] counts
    the characters of the match still to be passed).  The patterns of
    [parse] never match the empty string, so a match always advances. *)
Fixpoint finditer_from (p : Pattern) (pos skip : nat) (s : list N) : list Match :=
  match s with
  | [] => []
  | _ :: s' =>
    match skip with
    | S n => finditer_from p (S pos) n s'
    | O =>
      match match_here p s with
      | Some (w, caps) =>
        mkMatch pos w caps :: finditer_from p (S pos) (length w - 1) s'
      | None => finditer_from p (S pos) 0 s'
      end
    end
  end.

(** [p.findall(s)], kept as match objects: the tuple entry [t[i]] of the
    source is [group t (i+1)]. *)
Definition findall (p : Pattern) (s : list N) : list Match := finditer_from p 0 0 s.

(** [re.sub(p, repl, s)] for a constant replacement text. *)
Fixpoint sub_scan (p : Pattern) (repl : list N) (skip : nat) (s : list N) : list N :=
  match s with
  | [] => []
  | c :: s' =>
    match skip with
    | S n => sub_scan p repl n s'
    | O =>
      match match_here p s with
      | Some (w, _) => repl ++ sub_scan p repl (length w - 1) s'
      | None => c :: sub_scan p repl 0 s'
      end
    end
  end.

Definition re_sub (p : Pattern) (repl : list N) (s : list N) : list N :=
  sub_scan p repl 0 s.

(** ** The patterns of [parse] *)

Definition newline : N -> bool := is_chr 0x0A.      (* \n *)
Definition roman : N -> bool := one_of (py "MDCLXVI").  (* [MDCLXVI] *)
Definition backslash : N -> bool := is_chr 0x5C.    (* \\ *)
Definition dot : N -> bool := is_chr 0x2E.          (* \. *)

(** [r'([\s\S]+?)(?=(\n+\s*Điều\s*[0-9]+)|(\n+\s*Mục\s*[0-9]+))'],
    [re.IGNORECASE] *)
Definition title_regex : Pattern :=
  re_compile
    (Group 1 (PlusLazy any)
     ⋅ LookAhead
         (Group 2 (Plus newline ⋅ Star isspace ⋅ Lit (py "Điều") ⋅ Star isspace ⋅ Plus digit)
          ∣ Group 3 (Plus newline ⋅ Star isspace ⋅ Lit (py "Mục") ⋅ Star isspace ⋅ Plus digit)))
    true.

(** [r'\n*\s*(Chương\s*([MDCLXVI]+))\s*([\s\S]*?)(?=(\n+\s*Chương\s*([MDCLXVI]+))|\Z)'] *)
Definition chuong_regex : Pattern :=
  re_compile
    (Star newline ⋅ Star isspace
     ⋅ Group 1 (Lit (py "Chương") ⋅ Star isspace ⋅ Group 2 (Plus roman))
     ⋅ Star isspace
     ⋅ Group 3 (StarLazy any)
     ⋅ LookAhead
         (Group 4 (Plus newline ⋅ Star isspace ⋅ Lit (py "Chương") ⋅ Star isspace
                   ⋅ Group 5 (Plus roman))
          ∣ EndZ))
    false.

(** [r'\n*\s*(Mục\s*[0-9]+)([\s\S]+?)(?=(\n+\s*Mục\s*[0-9]+)|(\n+\s*Chương\s*([MDCLXVI]+))|\Z)'] *)
Definition muc_regex : Pattern :=
  re_compile
    (Star newline ⋅ Star isspace
     ⋅ Group 1 (Lit (py "Mục") ⋅ Star isspace ⋅ Plus digit)
     ⋅ Group 2 (PlusLazy any)
     ⋅ LookAhead
         (Group 3 (Plus newline ⋅ Star isspace ⋅ Lit (py "Mục") ⋅ Star isspace ⋅ Plus digit)
          ∣ Group 4 (Plus newline ⋅ Star isspace ⋅ Lit (py "Chương") ⋅ Star isspace
                     ⋅ Group 5 (Plus roman))
          ∣ EndZ))
    false.

(** [r'\n*\s*(Điều\s*[0-9]*\\*\.+[\s\S]+?)(?=\n+\s*Điều\s*[0-9]+\\*\.|\Z)'] *)
Definition dieu_regex : Pattern :=
  re_compile
    (Star newline ⋅ Star isspace
     ⋅ Group 1 (Lit (py "Điều") ⋅ Star isspace ⋅ Star digit ⋅ Star backslash ⋅ Plus dot
                ⋅ PlusLazy any)
     ⋅ LookAhead
         (Plus newline ⋅ Star isspace ⋅ Lit (py "Điều") ⋅ Star isspace ⋅ Plus digit
          ⋅ Star backslash ⋅ In dot
          ∣ EndZ))
    false.

(** [r'[#*_\[\]\(\)-]'] *)
Definition decoration_regex : Pattern := re_compile (In (one_of (py "#*_[]()-"))) false.

(** [r'\s+'] *)
Definition whitespace_regex : Pattern := re_compile (Plus isspace) false.

(** ** The node tree *)

Inductive VBPLSection : Type :=
| CHAPTER | SECTION | ARTICLE | CLAUSE | POINT | SUBPOINT.

(** The dictionaries built by [parse]: [chuong_data] and [muc_data] have
    the keys type, id_text, title, children; [dieu_data] has type and
    content. *)
#[warnings="-register-all"]
Inductive node : Type :=
| Division (type : VBPLSection) (id_text title : list N) (children : list node)
| Leaf (type : VBPLSection) (content : list N).

Definition node_type (n : node) : VBPLSection :=
  match n with
  | Division t _ _ _ => t
  | Leaf t _ => t
  end.

Definition node_children (n : node) : list node :=
  match n with
  | Division _ _ _ c => c
  | Leaf _ _ => []
  end.

(** ** Title splitting *)

(** [re.sub(r'\s+', ' ', re.sub(r'[#*_\[\]\(\)-]', '', x)).strip()] *)
Definition clean_title (x : list N) : list N :=
  strip (re_sub whitespace_regex (py " ") (re_sub decoration_regex [] x)).

(** The title block of [parse], which the source repeats for
    [chuong[2]] and [muc[1]]: the cleaned title and the content passed
    down. *)
Definition split_title (body : list N) : list N * list N :=
  match search title_regex body with
  | Some title_match =>
    let title := clean_title (group0 title_match) in
    (title, strip (replace body title []))
  | None => ([], strip body)
  end.

(** ** The cascade *)

(** [{"type": ARTICLE, "content": dieu.replace('*', '').strip()}];
    [dieu_regex] has one group, so [findall] yields that group. *)
Definition dieu_node (dieu : Match) : node :=
  Leaf ARTICLE (strip (replace (group dieu 1) (py "*") [])).

Definition muc_node (muc : Match) : node :=
  let '(title, muc_content) := split_title (group muc 2) in
  Division SECTION (strip (group muc 1)) title
    (map dieu_node (findall dieu_regex muc_content)).

Definition chuong_node (chuong : Match) : node :=
  let '(title, chuong_content) := split_title (group chuong 3) in
  let muc_matches := findall muc_regex chuong_content in
  Division CHAPTER (strip (group chuong 1)) title
    match muc_matches with
    | _ :: _ => map muc_node muc_matches
    | [] => map dieu_node (findall dieu_regex chuong_content)
    end.

(** The [data] list computed by [parse] from [content]. *)
Definition segment (content : list N) : list node :=
  let chuong_matches := findall chuong_regex content in
  match chuong_matches with
  | _ :: _ => map chuong_node chuong_matches
  | [] =>
    let muc_matches := findall muc_regex content in
    match muc_matches with
    | _ :: _ => map muc_node muc_matches
    | [] => map dieu_node (findall dieu_regex content)
    end
  end.

(** ** [parse] and its collaborators *)

(** The exceptions that the code of [parse] and of [extract_info] can
    raise by itself: [AttributeError] for [None.get_text], and
    [UnboundLocalError] for the read of a local that was never bound. *)
Inductive exn : Type := AttributeError | UnboundLocalError.

(** How a call ends: with a value or with a raised exception. *)
Inductive outcome (A : Type) : Type :=
| Return (a : A)
| Raise (e : exn).
Arguments Return {A} a.
Arguments Raise {A} e.

(** How a run of [extract_info] ends. *)
Inductive completion (A : Type) : Type :=
| Normal (a : A)
| Exception (e : exn).
Arguments Normal {A} a.
Arguments Exception {A} e.

(** A tag of the page and what [get_text(strip=False)] gives for it. *)
Record Tag : Type := { get_text : list N }.

(** The parsed page: [find_div soup c] is [soup.find('div', class_=c)],
    [None] when the page has no such element. *)
Record BeautifulSoup : Type := { find_div : string -> option Tag }.

(** What [parse] returns: [{}] or
    [{"document_info": ..., "data": data}], the first entry read off the
    dictionary that [extract_info] returned. *)
Inductive parse_result (Info : Type) : Type :=
| EmptyDict
| Result (document_info : Info) (data : list node).
Arguments EmptyDict {Info}.
Arguments Result {Info} document_info data.

Section Parse.
Context {Info : Type}.
(** The collaborators: page retrieval, HTML parsing, and metadata
    extraction, which may end with an exception. *)
Variable crawl_toanvan : string -> list N.
Variable parse_html : list N -> BeautifulSoup.
Variable extract_info : BeautifulSoup -> completion Info.

(** [VBPLCrawler.parse(id)], run on a file system [fs] (path to file
    contents); it returns its outcome and the file system it leaves.
    [content.txt] is written before the segmentation, and [extract_info]
    runs after it: an exception of [extract_info] leaves [parse] with the
    file already written. *)
Definition parse (id : string) (fs : gmap string (list N))
    : outcome (parse_result Info) * gmap string (list N) :=
  let html_content := crawl_toanvan id in
  match html_content with
  | [] => (Return EmptyDict, fs)
  | _ :: _ =>
    let soup := parse_html html_content in
    match find_div soup "toanvancontent" with
    | None => (Raise AttributeError, fs)   (* None.get_text *)
    | Some div =>
      let content := get_text div in
      match content with
      | [] => (Return EmptyDict, fs)
      | _ :: _ =>
        let fs' := <["content.txt" := content]> fs in
        let data := segment content in
        match extract_info soup with
        | Normal info => (Return (Result info data), fs')
        | Exception e => (Raise e, fs')
        end
      end
    end
  end.
End Parse.

(** ** Vocabulary of the statements *)

(** All nodes of a tree, the root first. *)
Fixpoint subnodes (n : node) : list node :=
  n :: match n with
       | Division _ _ _ children => flat_map subnodes children
       | Leaf _ _ => []
       end.

(** What the cascade guarantees of a node: an article is a leaf whose
    content is free of asterisks, every other node is a chapter or a
    section with children. *)
Definition well_formed_node (n : node) : Prop :=
  match n with
  | Leaf t c => t = ARTICLE ∧ 0x2A ∉ c
  | Division t _ _ _ => t = CHAPTER ∨ t = SECTION
  end.

(** Scenario A of the specification. *)
Definition scenario_A : list N :=
  py "Chương I" ++ nl ++ py "Quy định chung" ++ nl ++ py "Điều 1. Nội dung một."
  ++ nl ++ py "Điều 2. Nội dung hai.".


(** A section node holding article nodes only. *)
Definition section_of_articles (n : node) : Prop :=
  node_type n = SECTION ∧ Forall (λ a, node_type a = ARTICLE) (node_children n).


(** The decorative characters removed from a title. *)
Definition decorative : N → bool := one_of (py "#*_[]()-").

(** No leading whitespace. *)
Definition no_lead (s : list N) : Prop :=
  match s with
  | c :: _ => isspace c = false
  | [] => True
  end.

(** Whitespace-normal text: every whitespace character is a single space
    followed by a non-whitespace character or by the end. *)
Fixpoint ws_normal (s : list N) : Prop :=
  match s with
  | [] => True
  | c :: s' => (isspace c = true → c = 0x20 ∧ no_lead s') ∧ ws_normal s'
  end.

(** [occurs s old]: [old] occurs somewhere in [s] ([old in s]). *)
Fixpoint occurs (s old : list N) : bool :=
  startswith s old
  || match s with
     | [] => false
     | _ :: s' => occurs s' old
     end.

(** [s] with only the first occurrence of [old] removed
    ([s.replace(old, "", 1)]). *)
Fixpoint remove_first (s old : list N) : list N :=
  match s with
  | [] => []
  | c :: s' => if startswith s old then drop (length old) s else c :: remove_first s' old
  end.

(** What follows the first occurrence of [old] in [s]. *)
Fixpoint after_first (s old : list N) : list N :=
  match s with
  | [] => []
  | c :: s' => if startswith s old then drop (length old) s else after_first s' old
  end.

(** A body in which the title text comes back after the first article. *)
Definition recurring_title_body : list N := py "A" ++ nl ++ py "Điều 1. A".

(** ** What a pattern matches *)

(** [lit_matches ic l w]: the text [w] spells the literal [l]. *)
Definition lit_matches (ic : bool) (l w : list N) : Prop :=
  Forall2 (λ p c, chr_match ic p c = true) l w.

(** [all_in cls w]: every character of [w] is in the class. *)
Definition all_in (cls : N → bool) (w : list N) : Prop :=
  Forall (λ c, cls c = true) w.

(** [Lang ic r w rest]: the pattern [r] can match the text [w] when it
    is followed by [rest] (lookahead and [\Z] inspect [rest]). *)
Fixpoint Lang (ic : bool) (r : regex) (w rest : list N) : Prop :=
  match r with
  | Lit l => lit_matches ic l w
  | In cls => ∃ c, w = [c] ∧ cls c = true
  | Seq r1 r2 =>
    ∃ w1 w2, w = w1 ++ w2 ∧ Lang ic r1 w1 (w2 ++ rest) ∧ Lang ic r2 w2 rest
  | Alt r1 r2 => Lang ic r1 w rest ∨ Lang ic r2 w rest
  | Star cls => all_in cls w
  | StarLazy cls => all_in cls w
  | Group _ r1 => Lang ic r1 w rest
  | LookAhead r1 => w = [] ∧ ∃ w1 rest1, rest = w1 ++ rest1 ∧ Lang ic r1 w1 rest1
  | EndZ => w = [] ∧ rest = []
  end.

(** The same with the groups: matching [w] turns the captures [caps]
    into [caps']. *)
Fixpoint LangC (ic : bool) (r : regex) (w rest : list N)
    (caps caps' : gmap nat (list N)) : Prop :=
  match r with
  | Lit l => lit_matches ic l w ∧ caps' = caps
  | In cls => (∃ c, w = [c] ∧ cls c = true) ∧ caps' = caps
  | Seq r1 r2 =>
    ∃ w1 w2 caps1, w = w1 ++ w2
      ∧ LangC ic r1 w1 (w2 ++ rest) caps caps1 ∧ LangC ic r2 w2 rest caps1 caps'
  | Alt r1 r2 => LangC ic r1 w rest caps caps' ∨ LangC ic r2 w rest caps caps'
  | Star cls => all_in cls w ∧ caps' = caps
  | StarLazy cls => all_in cls w ∧ caps' = caps
  | Group n r1 => ∃ caps1, LangC ic r1 w rest caps caps1 ∧ caps' = <[n := w]> caps1
  | LookAhead r1 =>
    w = [] ∧ ∃ w1 rest1, rest = w1 ++ rest1 ∧ LangC ic r1 w1 rest1 caps caps'
  | EndZ => (w = [] ∧ rest = []) ∧ caps' = caps
  end.

(** ** Markers in a body *)

(** [marker_here kw s]: [s] starts with the keyword [kw], written in any
    letter case, then optional whitespace, then a digit. *)
Definition marker_here (kw s : list N) : bool :=
  match lit_rest true kw s with
  | Some s1 =>
    match lstrip s1 with
    | d :: _ => digit d
    | [] => false
    end
  | None => false
  end.

(** [contains_marker s]: an Article or a Section marker starts at some
    position of [s]. *)
Fixpoint contains_marker (s : list N) : bool :=
  marker_here (py "Điều") s || marker_here (py "Mục") s
  || match s with
     | [] => false
     | _ :: s' => contains_marker s'
     end.

(** ** Chapter spans *)

(** The layout of one chapter match: whitespace, the marker (group 1),
    whitespace, the body (group 3). *)
Definition chapter_layout (m : Match) : Prop :=
  ∃ lead ws,
    group0 m = lead ++ group m 1 ++ ws ++ group m 3
    ∧ all_in isspace lead ∧ all_in isspace ws ∧ group m 1 ≠ [].

(** A document of two chapters and no other marker. *)
Definition two_chapters : list N :=
  py "Chương I" ++ nl ++ py "A" ++ nl ++ py "Chương II" ++ nl ++ py "B".

(** The group numbers that occur in a pattern. *)
Fixpoint groups_of (r : regex) : list nat :=
  match r with
  | Seq r1 r2 | Alt r1 r2 => groups_of r1 ++ groups_of r2
  | Group n r1 => n :: groups_of r1
  | LookAhead r1 => groups_of r1
  | Lit _ | In _ | Star _ | StarLazy _ | EndZ => []
  end.

(** The least number of characters a match of the pattern takes. *)
Fixpoint min_length (r : regex) : nat :=
  match r with
  | Lit l => length l
  | In _ => 1
  | Seq r1 r2 => min_length r1 + min_length r2
  | Alt r1 r2 => min_length r1 `min` min_length r2
  | Group _ r1 => min_length r1
  | Star _ | StarLazy _ | LookAhead _ | EndZ => 0
  end.

(** The patterns that [parse] scans with. *)
Definition parse_patterns : list Pattern :=
  [title_regex; chuong_regex; muc_regex; dieu_regex; decoration_regex; whitespace_regex].

(** ** The fields of a node *)

Definition node_id_text (n : node) : list N :=
  match n with
  | Division _ i _ _ => i
  | Leaf _ _ => []
  end.

Definition node_title (n : node) : list N :=
  match n with
  | Division _ _ t _ => t
  | Leaf _ _ => []
  end.

Definition node_content (n : node) : list N :=
  match n with
  | Division _ _ _ _ => []
  | Leaf _ c => c
  end.

(** A tidy title: no decorative character, whitespace only as single
    spaces between other characters, nothing to trim. *)
Definition tidy (t : list N) : Prop :=
  all_in (λ c, negb (decorative c)) t ∧ ws_normal t ∧ strip t = t.

(** The shape of a chapter id: the keyword, whitespace, roman-numeral
    letters. *)
Definition chapter_id (i : list N) : Prop :=
  ∃ ws rs, i = py "Chương" ++ ws ++ rs
           ∧ all_in isspace ws ∧ all_in roman rs ∧ rs ≠ [].

(** The shape of a section id: the keyword, whitespace, digits. *)
Definition section_id (i : list N) : Prop :=
  ∃ ws ds, i = py "Mục" ++ ws ++ ds
           ∧ all_in isspace ws ∧ all_in digit ds ∧ ds ≠ [].

(** The text of an article: it starts with the keyword and has nothing
    to trim. *)
Definition article_text (c : list N) : Prop :=
  startswith c (py "Điều") = true ∧ strip c = c.

(** What [segment] guarantees of each node of its trees. *)
Definition node_ok (n : node) : Prop :=
  match n with
  | Leaf t c => t = ARTICLE ∧ article_text c
  | Division t i title children =>
    tidy title
    ∧ ((t = CHAPTER ∧ chapter_id i
        ∧ (Forall (λ c, node_type c = SECTION) children
           ∨ Forall (λ c, node_type c = ARTICLE) children))
       ∨ (t = SECTION ∧ section_id i
          ∧ Forall (λ c, node_type c = ARTICLE) children))
  end.

(** Scenario D of the specification: a chapter with a section that holds
    two articles. *)
Definition scenario_D : list N :=
  py "Chương II" ++ nl ++ py "Quy định cụ thể" ++ nl ++ py "Mục 1" ++ nl
  ++ py "Phạm vi" ++ nl ++ py "Điều 3. Ba." ++ nl ++ py "Điều 4. Bốn.".

(** ** Markers in a text *)

(** A chapter marker: the keyword, optional whitespace, a roman-numeral
    letter. *)
Definition chapter_marker_in (text : list N) : Prop :=
  ∃ pre ws r tail,
    text = pre ++ py "Chương" ++ ws ++ r :: tail
    ∧ all_in isspace ws ∧ roman r = true.

(** A section marker with something after it: the keyword, optional
    whitespace, a digit, one more character. *)
Definition section_marker_in (text : list N) : Prop :=
  ∃ pre ws d c tail,
    text = pre ++ py "Mục" ++ ws ++ d :: c :: tail
    ∧ all_in isspace ws ∧ digit d = true.

(** An article marker with something after it: the keyword, optional
    whitespace, optional digits, optional backslashes, a period, one more
    character. *)
Definition article_marker_in (text : list N) : Prop :=
  ∃ pre ws ds bs c tail,
    text = pre ++ py "Điều" ++ ws ++ ds ++ bs ++ 0x2E :: c :: tail
    ∧ all_in isspace ws ∧ all_in digit ds ∧ all_in backslash bs.

(** ** Title boundaries *)

(** The lookahead of [title_regex]. *)
Definition title_boundary : regex :=
  (Group 2 (Plus newline ⋅ Star isspace ⋅ Lit (py "Điều") ⋅ Star isspace ⋅ Plus digit)
   ∣ Group 3 (Plus newline ⋅ Star isspace ⋅ Lit (py "Mục") ⋅ Star isspace ⋅ Plus digit))%re.

(** [boundary_led s]: [s] starts with a title boundary: a newline, optional
    whitespace, the article or the section keyword in any letter case,
    optional whitespace, a digit. *)
Definition boundary_led (s : list N) : Prop :=
  ∃ lead k ws d tail,
    s = 0x0A :: lead ++ k ++ ws ++ d :: tail
    ∧ all_in isspace lead
    ∧ (lit_matches true (py "Điều") k ∨ lit_matches true (py "Mục") k)
    ∧ all_in isspace ws ∧ digit d = true.

(** A chapter body with a title line and two article markers. *)
Definition titled_body : list N :=
  py "Quy định chung" ++ nl ++ py "Điều 1. Một." ++ nl ++ py "Điều 2. Hai.".

(** ** Article spans *)

(** A bare article marker: a newline, optional whitespace, the keyword,
    optional whitespace, digits, optional backslashes and a period, with
    nothing after the period. *)
Definition bare_article_marker (s : list N) : Prop :=
  ∃ lead ws ds bs,
    s = 0x0A :: lead ++ py "Điều" ++ ws ++ ds ++ bs ++ [0x2E]
    ∧ all_in isspace lead ∧ all_in isspace ws
    ∧ all_in digit ds ∧ ds ≠ [] ∧ all_in backslash bs.

(** The layout of one article match: whitespace, then the article text
    (group 1). *)
Definition article_layout (m : Match) : Prop :=
  ∃ lead, group0 m = lead ++ group m 1 ∧ all_in isspace lead ∧ group m 1 ≠ [].

(** A flat document of two articles. *)
Definition two_articles : list N :=
  py "Điều 1. Một." ++ nl ++ py "Điều 2. Hai.".

(** ** Retrieval and metadata extraction *)

(** [s.split(sep)] for a non-empty separator: the pieces between the
    non-overlapping occurrences of [sep], leftmost first. *)
Fixpoint split_scan (sep : list N) (skip : nat) (s : list N) : list (list N) :=
  match s with
  | [] => [[]]
  | c :: s' =>
    match skip with
    | S n => split_scan sep n s'
    | O =>
      if startswith s sep
      then [] :: split_scan sep (length sep - 1) s'
      else match split_scan sep 0 s' with
           | piece :: pieces => (c :: piece) :: pieces
           | [] => [[c]]
           end
    end
  end.

Definition split (s sep : list N) : list (list N) := split_scan sep 0 s.

(** [l[-1]] and [l[0]] on a list of strings ([split] never returns an
    empty list). *)
Definition last_piece (l : list (list N)) : list N := default [] (last l).
Definition first_piece (l : list (list N)) : list N := default [] (head l).

(** [self.toanvan_url.format(id)] and [self.luocdo_url.format(id)]. *)
Definition toanvan_url (id : list N) : list N :=
  py "https://vbpl.vn/nganhangnhanuoc/Pages/vbpq-toanvan.aspx?ItemID=" ++ id.
Definition luocdo_url (id : list N) : list N :=
  py "https://vbpl.vn/nganhangnhanuoc/Pages/vbpq-luocdo.aspx?ItemID=" ++ id.

(** What [httpx.get(url, timeout=30)] followed by
    [response.raise_for_status()] can do: answer with a status that
    [raise_for_status] accepts or rejects, or raise. *)
Inductive httpx_error : Type := RequestError | OtherException.
Inductive httpx_reply : Type :=
| Response (status_raises : bool) (text : list N)
| Fails (e : httpx_error).

(** The body shared by [crawl_toanvan] and [crawl_luocdo]: the text of
    the response, or the empty string when the request or the status
    check raised (the three [except] clauses all return [""]). *)
Definition crawl (httpx_get : list N → httpx_reply) (url : list N) : list N :=
  match httpx_get url with
  | Response false text => text
  | Response true _ => []       (* except httpx.HTTPStatusError *)
  | Fails RequestError => []    (* except httpx.RequestError *)
  | Fails OtherException => []  (* except Exception *)
  end.

Definition crawl_toanvan (httpx_get : list N → httpx_reply) (id : list N) : list N :=
  crawl httpx_get (toanvan_url id).

Definition crawl_luocdo (httpx_get : list N → httpx_reply) (id : list N) : list N :=
  crawl httpx_get (luocdo_url id).

(** [a_tag['href'].split('ItemID=')[-1].split('&')[0].strip()] *)
Definition document_id_of (href : list N) : list N :=
  strip (first_piece (split (last_piece (split href (py "ItemID="))) (py "&"))).

(** [lines[-1].replace('*', '').strip() if lines else ""] for
    [lines = plain_text.split('\n')]. *)
Definition document_title_of (plain_text : list N) : list N :=
  match split plain_text nl with
  | [] => []
  | lines => strip (replace (last_piece lines) (py "*") [])
  end.

(** [line.split(label)[-1].strip()] *)
Definition field_value (label line : list N) : list N :=
  strip (last_piece (split line label)).

Definition status_label : list N := py "Hiệu lực: ".
Definition effective_label : list N := py "Ngày có hiệu lực: ".
Definition expired_label : list N := py "Ngày hết hiệu lực: ".

(** One turn of the loop over the lines of the [vbInfo] text. *)
Definition info_line (info : gmap string (list N)) (line : list N)
    : gmap string (list N) :=
  if occurs line status_label
  then <["document_status" := field_value status_label line]> info
  else if occurs line effective_label
  then <["effective_date" := field_value effective_label line]> info
  else if occurs line expired_label
  then <["expired_date" := field_value expired_label line]> info
  else info.

(** The [vbInfo] block of [extract_info] on [plain_text], the stripped
    text of the div. *)
Definition vbinfo_fields (plain_text : list N) (info : gmap string (list N))
    : gmap string (list N) :=
  foldl info_line info (split plain_text nl).

(** [free_before pre sep]: no occurrence of [sep] starts inside [pre] in
    the text [pre ++ sep]. *)
Fixpoint free_before (pre sep : list N) : bool :=
  match pre with
  | [] => true
  | _ :: pre' => negb (startswith (pre ++ sep) sep) && free_before pre' sep
  end.

(** Which field a line of the [vbInfo] text sets: the first label found,
    in the order of the [if]/[elif] chain. *)
Definition sets_status (line : list N) : bool := occurs line status_label.
Definition sets_effective (line : list N) : bool :=
  negb (occurs line status_label) && occurs line effective_label.
Definition sets_expired (line : list N) : bool :=
  negb (occurs line status_label) && negb (occurs line effective_label)
  && occurs line expired_label.

(** The last line of [lines] that [sel] selects. *)
Definition last_such (sel : list N → bool) (lines : list (list N)) : option (list N) :=
  last (filter (λ l, sel l = true) lines).

(** A [vbInfo] text as the site shows it, one field per line. *)
Definition vbinfo_example : list N :=
  py "Hiệu lực: Còn hiệu lực" ++ nl ++ py "Ngày có hiệu lực: 01/01/2020".

(** ** [extract_info] *)

Definition bind {A B} (m : completion A) (f : A → completion B) : completion B :=
  match m with
  | Normal a => f a
  | Exception e => Exception e
  end.

(** A loop whose body may raise. *)
Fixpoint for_each {A S} (body : S → A → completion S) (st : S) (l : list A)
    : completion S :=
  match l with
  | [] => Normal st
  | x :: l' => bind (body st x) (λ st', for_each body st' l')
  end.

(** What [extract_info] reads of the page: the text that html2text gives
    for the [vbInfo] div and for the [box-map] div ([None] when the div
    is missing), and the [href] of the first link of the [header] div
    ([None] when the div, the link or the attribute is missing). *)
Record InfoSoup : Type := {
  vbInfo_text : option (list N);
  box_map_text : option (list N);
  header_href : option (list N)
}.

(** An item of [li.contents]: a text node, or an element with its name,
    [item.get('class', [])], [item.get_text(strip=True)] and
    [item.get('href', '')]. *)
Inductive li_item : Type :=
| TextNode (s : list N)
| Element (name : string) (classes : list string) (text : list N) (href : list N).

(** A link of a title div: [link.get('class')] and
    [link.get_text(strip=True)]. *)
Record title_link : Type := {
  link_class : option (list string);
  link_text : list N
}.

(** A child [div[class^="luocdo"]] of the diagram: the links of its
    [title] (or else [titleht]) div, [None] when it has neither; and the
    contents of the [li] elements of its [content] div, [None] when it
    has none. *)
Record luocdo_child : Type := {
  child_title : option (list title_link);
  child_content : option (list (list li_item))
}.

(** An entry [{"title": ..., "id": ...}] of a relationship list. *)
Record relation : Type := { relation_title : list N; relation_id : list N }.

(** The dictionary that [extract_info] returns: its string fields and its
    [relationship] entry. *)
Record Info : Type := {
  fields : gmap string (list N);
  relationship : option (gmap (list N) (list relation))
}.

(** The title of a child: the text of the first link that is not an
    [openClose] link and has text. *)
Fixpoint title_text_of (links : list title_link) : list N :=
  match links with
  | [] => []
  | link :: links' =>
    match link_class link with
    | Some (c :: cs) =>
      if bool_decide ("openClose" ∈ c :: cs) then title_text_of links'
      else match link_text link with
           | [] => title_text_of links'
           | t => t
           end
    | _ =>
      match link_text link with
      | [] => title_text_of links'
      | t => t
      end
    end
  end.

(** [item.name == 'a' and 'jTips' in item.get('class', [])] *)
Definition is_diagram_link (item : li_item) : bool :=
  match item with
  | TextNode _ => false
  | Element name classes _ _ => bool_decide (name = "a") && bool_decide ("jTips" ∈ classes)
  end.

(** The id that a diagram link gives. *)
Definition link_item_id (document_id title_text href : list N) : list N :=
  if occurs href (py "ItemID=") then last_piece (split href (py "ItemID="))
  else if bool_decide (title_text = py "Văn bản hiện thời") then document_id
  else [].

(** One item of an [li]: [main_text] grows, and a diagram link sets
    [item_id].  [item_id] is a variable of the whole function:
    [None] while nothing has been assigned to it. *)
Definition item_step (document_id title_text : list N)
    (st : list N * option (list N)) (item : li_item) : list N * option (list N) :=
  match item with
  | TextNode s => (st.1 ++ strip s, st.2)
  | Element _ _ text href =>
    if is_diagram_link item
    then (st.1 ++ text, Some (link_item_id document_id title_text href))
    else st
  end.

(** One [li]: when it has text, an entry with the cleaned text and the
    current [item_id] is appended. *)
Definition li_step (document_id title_text : list N)
    (st : list relation * option (list N)) (li : list li_item)
    : completion (list relation * option (list N)) :=
  let '(main_text, item_id) :=
    foldl (item_step document_id title_text) ([], st.2) li in
  match main_text with
  | [] => Normal (st.1, item_id)
  | _ :: _ =>
    match item_id with
    | Some id =>
      Normal (st.1 ++ [{| relation_title :=
                            strip (re_sub whitespace_regex (py " ") main_text);
                          relation_id := id |}], item_id)
    | None => Exception UnboundLocalError
    end
  end.

(** One child of the diagram. *)
Definition child_step (document_id : list N)
    (st : gmap (list N) (list relation) * option (list N)) (child : luocdo_child)
    : completion (gmap (list N) (list relation) * option (list N)) :=
  match child_title child with
  | None => Normal st
  | Some links =>
    match title_text_of links with
    | [] => Normal st
    | title_text =>
      match child_content child with
      | None => Normal (<[title_text := []]> st.1, st.2)
      | Some list_items =>
        bind (for_each (li_step document_id title_text) ([], st.2) list_items)
             (λ r, Normal (<[title_text := r.1]> st.1, r.2))
      end
    end
  end.

(** The first half of [extract_info]: the string fields read from the
    [vbInfo], [box-map] and [header] divs. *)
Definition info_fields (soup : InfoSoup) : gmap string (list N) :=
  let info0 : gmap string (list N) := ∅ in
  let info1 :=
    match vbInfo_text soup with
    | Some text => vbinfo_fields (strip text) info0
    | None => info0
    end in
  let info2 :=
    match box_map_text soup with
    | Some text => <["document_title" := document_title_of (strip text)]> info1
    | None => info1
    end in
  match header_href soup with
  | Some href => <["document_id" := document_id_of href]> info2
  | None => info2
  end.

(** [VBPLCrawler.extract_info(soup)]; [parse_luocdo html] is
    [parse_html(html).find('div', class_='vbLuocDo')] followed by
    [select('div[class^="luocdo"]')], [None] when the div is missing. *)
Definition extract_info (httpx_get : list N → httpx_reply)
    (parse_luocdo : list N → option (list luocdo_child)) (soup : InfoSoup)
    : completion Info :=
  let info := info_fields soup in
  let document_id := default [] (info !! "document_id") in
  let html_luocdo :=
    match document_id with
    | [] => []
    | _ :: _ => crawl_luocdo httpx_get document_id
    end in
  match html_luocdo with
  | [] => Normal {| fields := info; relationship := None |}
  | _ :: _ =>
    match parse_luocdo html_luocdo with
    | None => Normal {| fields := info; relationship := Some ∅ |}
    | Some luocdo_children =>
      bind (for_each (child_step document_id) (∅, None) luocdo_children)
           (λ r, Normal {| fields := info; relationship := Some r.1 |})
    end
  end.

(** The text that the text nodes of an [li] contribute. *)
Definition plain_text_of (li : list li_item) : list N :=
  flat_map (λ item, match item with TextNode s => strip s | Element _ _ _ _ => [] end) li.

(** The [document_info] dictionary that [parse] builds from [info]: each
    key is [info.get(key, "")]. *)
Definition document_info (info : Info) : gmap string (list N) :=
  let get key := default [] (fields info !! key) in
  <["document_id" := get "document_id"]>
  (<["document_title" := get "document_title"]>
  (<["document_date" := get "document_date"]>
  (<["document_status" := get "document_status"]>
  (<["effective_date" := get "effective_date"]>
  (<["expired_date" := get "expired_date"]> ∅))))).

(** A diagram page with one category whose only item is plain text. *)
Definition unlinked_diagram : list luocdo_child :=
  [ {| child_title := Some [ {| link_class := None; link_text := py "Văn bản hiện thời" |} ];
       child_content := Some [ [ TextNode (py "Thông tư 01/2020") ] ] |} ].

Definition linked_soup : InfoSoup :=
  {| vbInfo_text := None; box_map_text := None;
     header_href := Some (py "/Pages/vbpq-toanvan.aspx?ItemID=32801&Keyword=") |}.

(** Every [li] of the child holds a diagram link. *)
Definition all_linked (child : luocdo_child) : Prop :=
  ∀ list_items, child_content child = Some list_items →
    Forall (Exists (λ item, is_diagram_link item = true)) list_items.

(** ** Markers as the specification words them *)

(** A section marker: the keyword, optional whitespace, a digit; the
    digit may end the text. *)
Definition section_marker_occurs (text : list N) : Prop :=
  ∃ pre ws d tail,
    text = pre ++ py "Mục" ++ ws ++ d :: tail
    ∧ all_in isspace ws ∧ digit d = true.

(** An article marker: the keyword, optional whitespace, optional
    digits, optional backslashes, a period; the period may end the
    text. *)
Definition article_marker_occurs (text : list N) : Prop :=
  ∃ pre ws ds bs tail,
    text = pre ++ py "Điều" ++ ws ++ ds ++ bs ++ 0x2E :: tail
    ∧ all_in isspace ws ∧ all_in digit ds ∧ all_in backslash bs.

(** ** Further texts of the statements *)

(** A chapter whose one-letter title comes back at the end of its
    article. *)
Definition recurring_title_chapter : list N :=
  py "Chương I" ++ nl ++ recurring_title_body.

(** A chapter whose title words come back inside its article. *)
Definition recurring_words_chapter : list N :=
  py "Chương I" ++ nl ++ py "Quy định chung" ++ nl
  ++ py "Điều 1. Các Quy định chung áp dụng.".

(** An article whose text ends in a section marker. *)
Definition section_marker_at_end : list N := py "Điều 1. a" ++ nl ++ py "Mục 2".


(** A section with a title line and one article, under no chapter. *)
Definition section_alone : list N :=
  py "Mục 1" ++ nl ++ py "Phạm vi" ++ nl ++ py "Điều 3. Ba.".

(** A body whose second line has the article keyword and a number but no
    period. *)
Definition unpunctuated_article_body : list N := py "Tên" ++ nl ++ py "Điều 5 x".

(** * Properties *)

(** ** Strings *)

Lemma lstrip_incl (s : list N) x : x ∈ lstrip s → x ∈ s.
Proof.
  induction s as [|c s IH]; simpl; [done|].
  destruct (isspace c); [|done].
  intros H. apply elem_of_cons. right. by apply IH.
Qed.

Lemma strip_incl (s : list N) x : x ∈ strip s → x ∈ s.
Proof.
  unfold strip, rstrip. intros H.
  apply lstrip_incl. rewrite elem_of_reverse in H.
  apply lstrip_incl in H. by rewrite elem_of_reverse in H.
Qed.

Lemma replace_scan_char_gone (a : N) (s : list N) :
  a ∉ replace_scan [a] [] 0 s.
Proof.
  induction s as [|c s IH]; simpl.
  - apply not_elem_of_nil.
  - rewrite andb_true_r. destruct (a =? c) eqn:E; simpl; [done|].
    apply not_elem_of_cons. split; [|done].
    intros ->. by rewrite N.eqb_refl in E.
Qed.

(** ** The shape of the tree *)

Lemma dieu_node_no_asterisk (dieu : Match) (t : VBPLSection) (c : list N) :
  dieu_node dieu = Leaf t c → t = ARTICLE ∧ 0x2A ∉ c.
Proof.
  unfold dieu_node. intros [= <- <-]. split; [done|].
  intros H. apply strip_incl in H.
  by apply (replace_scan_char_gone 0x2A) in H.
Qed.

Lemma subnodes_division t i ti (ch : list node) :
  subnodes (Division t i ti ch) = Division t i ti ch :: flat_map subnodes ch.
Proof.
  reflexivity.
Qed.

Lemma dieu_nodes_well_formed (l : list Match) :
  Forall well_formed_node (flat_map subnodes (map dieu_node l)).
Proof.
  induction l as [|d l IH]; simpl; constructor; [|done].
  by apply (dieu_node_no_asterisk d).
Qed.

Lemma muc_node_shape (muc : Match) :
  ∃ title body,
    muc_node muc
    = Division SECTION (strip (group muc 1)) title
        (map dieu_node (findall dieu_regex body))
    ∧ split_title (group muc 2) = (title, body).
Proof.
  unfold muc_node. destruct (split_title (group muc 2)) as [title body].
  by exists title, body.
Qed.

Lemma muc_nodes_well_formed (l : list Match) :
  Forall well_formed_node (flat_map subnodes (map muc_node l)).
Proof.
  induction l as [|mu l IH]; simpl; [constructor|].
  apply Forall_app. split; [|done].
  destruct (muc_node_shape mu) as (title & body & -> & _).
  rewrite subnodes_division. constructor; [by right|].
  apply dieu_nodes_well_formed.
Qed.

Lemma chuong_node_shape (chuong : Match) :
  ∃ title body,
    split_title (group chuong 3) = (title, body)
    ∧ chuong_node chuong
      = Division CHAPTER (strip (group chuong 1)) title
          match findall muc_regex body with
          | _ :: _ => map muc_node (findall muc_regex body)
          | [] => map dieu_node (findall dieu_regex body)
          end.
Proof.
  unfold chuong_node. destruct (split_title (group chuong 3)) as [title body].
  by exists title, body.
Qed.

Lemma chuong_nodes_well_formed (l : list Match) :
  Forall well_formed_node (flat_map subnodes (map chuong_node l)).
Proof.
  induction l as [|ch l IH]; simpl; [constructor|].
  apply Forall_app. split; [|done].
  destruct (chuong_node_shape ch) as (title & body & _ & ->).
  rewrite subnodes_division. constructor; [by left|].
  destruct (findall muc_regex body).
  - apply dieu_nodes_well_formed.
  - apply muc_nodes_well_formed.
Qed.

Lemma segment_well_formed (content : list N) :
  Forall well_formed_node (flat_map subnodes (segment content)).
Proof.
  unfold segment.
  destruct (findall chuong_regex content).
  - destruct (findall muc_regex content).
    + apply dieu_nodes_well_formed.
    + apply muc_nodes_well_formed.
  - apply chuong_nodes_well_formed.
Qed.

(** C10: every Article node that [segment] produces, at whatever depth
    and in whichever of the four branches it was built, is a leaf whose
    content holds no asterisk. *)
Theorem article_content_no_asterisk (content : list N) (n : node) :
  n ∈ flat_map subnodes (segment content) →
  node_type n = ARTICLE →
  ∃ c, n = Leaf ARTICLE c ∧ 0x2A ∉ c.
Proof.
  intros Hin Hty.
  pose proof (segment_well_formed content) as Hwf.
  rewrite Forall_forall in Hwf. specialize (Hwf n Hin).
  destruct n as [t i ti ch|t c]; simpl in *.
  - destruct Hwf as [->| ->]; discriminate.
  - destruct Hwf as [-> Hc]. by exists c.
Qed.

Lemma article_content_no_asterisk_witness :
  Leaf ARTICLE (py "Điều 5. ab") ∈ flat_map subnodes (segment (py "Điều 5. a*b"))
  ∧ ∃ c, Leaf ARTICLE (py "Điều 5. ab") = Leaf ARTICLE c ∧ 0x2A ∉ c.
Proof.
  assert (Hin : Leaf ARTICLE (py "Điều 5. ab")
                ∈ flat_map subnodes (segment (py "Điều 5. a*b"))).
  { assert (E : flat_map subnodes (segment (py "Điều 5. a*b"))
                = [Leaf ARTICLE (py "Điều 5. ab")]) by (vm_compute; reflexivity).
    rewrite E. apply list_elem_of_here. }
  split; [exact Hin|].
  exact (article_content_no_asterisk _ _ Hin eq_refl).
Defined.

(** C7: scenario A.  The text of one chapter with a title line and two
    articles yields one Chapter node with that id and title and the two
    Article nodes, in order, as its children. *)
Theorem scenario_A_tree :
  segment scenario_A
  = [Division CHAPTER (py "Chương I") (py "Quy định chung")
       [Leaf ARTICLE (py "Điều 1. Nội dung một.");
        Leaf ARTICLE (py "Điều 2. Nội dung hai.")]].
Proof. vm_compute. reflexivity. Qed.

Lemma dieu_nodes_are_articles (l : list Match) :
  Forall (λ a, node_type a = ARTICLE) (map dieu_node l).
Proof. apply Forall_map. by apply Forall_true. Qed.

Lemma muc_node_section_of_articles (muc : Match) : section_of_articles (muc_node muc).
Proof.
  destruct (muc_node_shape muc) as (title & body & -> & _).
  split; [done|]. apply dieu_nodes_are_articles.
Qed.

(** ** [parse] *)

(** C3 (the code departs from it): on a retrieved page that has no
    [toanvancontent] container, [parse] raises [AttributeError] instead
    of returning an empty result. *)
Theorem parse_missing_container_raises {Info : Type}
    (crawl_toanvan : string → list N) (parse_html : list N → BeautifulSoup)
    (extract_info : BeautifulSoup → completion Info) (id : string)
    (fs : gmap string (list N)) :
  crawl_toanvan id ≠ [] →
  find_div (parse_html (crawl_toanvan id)) "toanvancontent" = None →
  parse crawl_toanvan parse_html extract_info id fs = (Raise AttributeError, fs).
Proof.
  intros Hhtml Hfind. unfold parse.
  destruct (crawl_toanvan id) as [|c html]; [done|].
  by rewrite Hfind.
Qed.

Lemma parse_missing_container_raises_witness :
  parse (λ _, py "<html><body></body></html>") (λ _, {| find_div := λ _, None |})
    (λ _, Normal tt) "32801" ∅
  = (Raise AttributeError, ∅).
Proof.
  apply (parse_missing_container_raises
           (λ _, py "<html><body></body></html>")
           (λ _, {| find_div := λ _, None |}) (λ _, Normal tt) "32801" ∅).
  - vm_compute. discriminate.
  - reflexivity.
Defined.




(** ** Stripping *)

Lemma lstrip_no_lead (s : list N) : no_lead (lstrip s).
Proof.
  induction s as [|c s IH]; simpl; [done|].
  destruct (isspace c) eqn:E; [done|]. simpl. done.
Qed.

Lemma lstrip_id (s : list N) : no_lead s → lstrip s = s.
Proof. destruct s as [|c s]; simpl; [done|]. by intros ->. Qed.

Lemma lstrip_split (s : list N) :
  ∃ w, s = w ++ lstrip s ∧ Forall (λ c, isspace c = true) w.
Proof.
  induction s as [|c s (w & Hs & Hw)]; simpl.
  - by exists [].
  - destruct (isspace c) eqn:E.
    + exists (c :: w). split; [simpl; by f_equal|by constructor].
    + by exists [].
Qed.

Lemma rstrip_split (s : list N) :
  ∃ w, s = rstrip s ++ w ∧ Forall (λ c, isspace c = true) w.
Proof.
  unfold rstrip.
  destruct (lstrip_split (reverse s)) as (w & Hs & Hw).
  exists (reverse w). split.
  - rewrite <- reverse_app, <- Hs. by rewrite reverse_involutive.
  - by apply Forall_reverse.
Qed.

Lemma rstrip_no_lead (s : list N) : no_lead s → no_lead (rstrip s).
Proof.
  intros H. destruct (rstrip_split s) as (w & Hs & _).
  destruct (rstrip s) as [|c r]; [done|].
  rewrite Hs in H. exact H.
Qed.

Lemma rstrip_id (s : list N) : no_lead (reverse s) → rstrip s = s.
Proof.
  intros H. unfold rstrip. rewrite lstrip_id by done. apply reverse_involutive.
Qed.

Lemma strip_fixed (s : list N) : strip (strip s) = strip s.
Proof.
  unfold strip at 1.
  rewrite (lstrip_id (strip s)).
  - apply rstrip_id. unfold strip, rstrip. rewrite reverse_involutive.
    apply lstrip_no_lead.
  - apply rstrip_no_lead, lstrip_no_lead.
Qed.

Lemma ws_normal_app_l (s w : list N) : ws_normal (s ++ w) → ws_normal s.
Proof.
  induction s as [|c s IH]; simpl; [done|].
  intros [Hc Hs]. split; [|by apply IH].
  intros Hsp. destruct (Hc Hsp) as [-> Hn]. split; [done|].
  by destruct s.
Qed.

Lemma ws_normal_lstrip (s : list N) : ws_normal s → ws_normal (lstrip s).
Proof.
  induction s as [|c s IH]; simpl; [done|].
  intros H. destruct (isspace c) eqn:E; [apply IH, H|].
  simpl. by rewrite E.
Qed.

Lemma ws_normal_strip (s : list N) : ws_normal s → ws_normal (strip s).
Proof.
  intros H. unfold strip.
  destruct (rstrip_split (lstrip s)) as (w & Hs & _).
  apply ws_normal_lstrip in H. rewrite Hs in H.
  by apply ws_normal_app_l in H.
Qed.

(** ** Substitution with the two cleaning patterns *)

Lemma sub_scan_skip (p : Pattern) (repl : list N) (n : nat) (s : list N) :
  sub_scan p repl n s = sub_scan p repl 0 (drop n s).
Proof.
  revert n. induction s as [|c s IH]; intros [|n]; simpl; done.
Qed.

Lemma star_greedy_total {R} (f : list N → R) (s : list N) :
  star_greedy isspace s (λ s', Some (f s')) = Some (f (lstrip s)).
Proof.
  induction s as [|c s IH]; simpl; [done|].
  destruct (isspace c); [by rewrite IH|done].
Qed.

Lemma lstrip_length (s : list N) : (length (lstrip s) ≤ length s)%nat.
Proof.
  destruct (lstrip_split s) as (w & Hs & _).
  rewrite Hs at 2. rewrite length_app. lia.
Qed.

Lemma drop_lstrip (s : list N) :
  drop (length s - length (lstrip s)) s = lstrip s.
Proof.
  destruct (lstrip_split s) as (w & Hs & _).
  rewrite Hs at 1 3. rewrite length_app.
  replace (length w + length (lstrip s) - length (lstrip s))%nat
    with (length w) by lia.
  by rewrite drop_app_length.
Qed.

Lemma sub_scan_cons (p : Pattern) (repl : list N) (c : N) (s : list N) :
  sub_scan p repl 0 (c :: s)
  = match match_here p (c :: s) with
    | Some (w, _) => repl ++ sub_scan p repl (length w - 1) s
    | None => c :: sub_scan p repl 0 s
    end.
Proof. reflexivity. Qed.

Lemma take_one_more (c : N) (s : list N) :
  take (length (c :: s) - length s) (c :: s) = [c].
Proof.
  simpl. replace (S (length s) - length s)%nat with 1%nat by lia. done.
Qed.

Lemma match_here_whitespace (c : N) (s : list N) :
  match_here whitespace_regex (c :: s)
  = if isspace c
    then Some (take (length (c :: s) - length (lstrip s)) (c :: s), ∅)
    else None.
Proof.
  unfold match_here, whitespace_regex, Plus.
  cbn [pattern IGNORECASE re_match].
  destruct (isspace c); [|done].
  by rewrite (star_greedy_total (λ s', (s', ∅))).
Qed.

Lemma match_here_decoration (c : N) (s : list N) :
  match_here decoration_regex (c :: s)
  = if decorative c then Some ([c], ∅) else None.
Proof.
  unfold match_here, decoration_regex.
  cbn [pattern IGNORECASE re_match]. fold decorative.
  destruct (decorative c); [|done].
  by rewrite take_one_more.
Qed.

Lemma re_sub_whitespace_cons (repl : list N) (c : N) (s : list N) :
  re_sub whitespace_regex repl (c :: s)
  = if isspace c then repl ++ re_sub whitespace_regex repl (lstrip s)
    else c :: re_sub whitespace_regex repl s.
Proof.
  unfold re_sub. rewrite sub_scan_cons, match_here_whitespace.
  destruct (isspace c); [|done].
  pose proof (lstrip_length s) as Hle.
  rewrite sub_scan_skip. f_equal. f_equal.
  rewrite length_take. cbn [length].
  replace ((S (length s) - length (lstrip s)) `min` S (length s) - 1)%nat
    with (length s - length (lstrip s))%nat by lia.
  apply drop_lstrip.
Qed.

Lemma re_sub_decoration_cons (c : N) (s : list N) :
  re_sub decoration_regex [] (c :: s)
  = if decorative c then re_sub decoration_regex [] s
    else c :: re_sub decoration_regex [] s.
Proof.
  unfold re_sub. rewrite sub_scan_cons, match_here_decoration.
  by destruct (decorative c).
Qed.

Lemma re_sub_decoration_clean (s : list N) :
  Forall (λ c, decorative c = false) (re_sub decoration_regex [] s).
Proof.
  induction s as [|c s IH]; [constructor|].
  rewrite re_sub_decoration_cons.
  destruct (decorative c) eqn:E; [done|by constructor].
Qed.

Lemma re_sub_decoration_id (s : list N) :
  Forall (λ c, decorative c = false) s → re_sub decoration_regex [] s = s.
Proof.
  induction 1 as [|c s Hc Hs IH]; [done|].
  rewrite re_sub_decoration_cons, Hc. by f_equal.
Qed.

Lemma re_sub_whitespace_normal (n : nat) :
  ∀ s : list N, (length s ≤ n)%nat →
    ws_normal (re_sub whitespace_regex (py " ") s)
    ∧ (no_lead s → no_lead (re_sub whitespace_regex (py " ") s)).
Proof.
  induction n as [|n IH]; intros [|c s] Hlen; simpl in Hlen; try done; try lia.
  rewrite re_sub_whitespace_cons.
  destruct (isspace c) eqn:E.
  - destruct (IH (lstrip s)) as [Hn Hl].
    { pose proof (lstrip_length s). lia. }
    split; [|simpl; congruence].
    change (py " " ++ ?x) with (0x20 :: x). simpl.
    split; [|done]. intros _. split; [done|]. apply Hl, lstrip_no_lead.
  - destruct (IH s) as [Hn Hl]; [lia|].
    split; [|done]. simpl. split; [|done]. congruence.
Qed.

Lemma re_sub_whitespace_chars (P : N → Prop) (n : nat) :
  P 0x20 →
  ∀ s : list N, (length s ≤ n)%nat → Forall P s →
    Forall P (re_sub whitespace_regex (py " ") s).
Proof.
  intros Hsp.
  induction n as [|n IH]; intros [|c s] Hlen Hall; simpl in Hlen;
    try (by constructor); try lia.
  rewrite re_sub_whitespace_cons.
  apply Forall_cons in Hall as [Hc Hs].
  destruct (isspace c).
  - change (py " " ++ ?x) with (0x20 :: x). constructor; [done|].
    apply IH.
    + pose proof (lstrip_length s). lia.
    + destruct (lstrip_split s) as (w & Hw & _).
      rewrite Hw in Hs. by apply Forall_app in Hs as [_ ?].
  - constructor; [done|]. apply IH; [lia|done].
Qed.

Lemma re_sub_whitespace_id (s : list N) :
  ws_normal s → re_sub whitespace_regex (py " ") s = s.
Proof.
  induction s as [|c s IH]; [done|].
  intros [Hc Hs]. rewrite re_sub_whitespace_cons.
  destruct (isspace c) eqn:E.
  - destruct (Hc eq_refl) as [-> Hl].
    rewrite (lstrip_id s Hl), (IH Hs). done.
  - by rewrite (IH Hs).
Qed.

(** C9: cleaning a title (dropping the decorative characters, turning
    each run of whitespace into one space, trimming) a second time
    changes nothing. *)
Theorem clean_title_idempotent (x : list N) :
  clean_title (clean_title x) = clean_title x.
Proof.
  unfold clean_title at 1.
  set (t := re_sub decoration_regex [] x).
  assert (Hdeco : Forall (λ c, decorative c = false) (clean_title x)).
  { unfold clean_title. fold t. apply Forall_forall. intros c Hc.
    apply strip_incl in Hc. revert c Hc. apply Forall_forall.
    apply (re_sub_whitespace_chars _ (length t)); [done|lia|].
    apply re_sub_decoration_clean. }
  assert (Hnorm : ws_normal (clean_title x)).
  { unfold clean_title. fold t. apply ws_normal_strip.
    by apply (re_sub_whitespace_normal (length t)). }
  rewrite (re_sub_decoration_id _ Hdeco), (re_sub_whitespace_id _ Hnorm).
  unfold clean_title. apply strip_fixed.
Qed.

(** ** Title removal *)

Lemma replace_scan_skip (old new : list N) (n : nat) (s : list N) :
  replace_scan old new n s = replace_scan old new 0 (drop n s).
Proof.
  revert n. induction s as [|c s IH]; intros [|n]; simpl; done.
Qed.

Lemma replace_scan_absent (old : list N) (s : list N) :
  occurs s old = false → replace_scan old [] 0 s = s.
Proof.
  induction s as [|c s IH]; [done|].
  cbn [occurs replace_scan]. intros H.
  apply orb_false_iff in H as [-> H]. by rewrite IH.
Qed.

Lemma replace_first_only (s old : list N) :
  old = [] ∨ occurs (after_first s old) old = false →
  replace s old [] = remove_first s old.
Proof.
  destruct old as [|a old].
  - intros _. simpl. induction s as [|c s IH]; simpl; [done|].
    destruct s; simpl in *; [done|]. by f_equal.
  - intros [|H]; [done|]. unfold replace.
    induction s as [|c s IH]; [done|].
    cbn [replace_scan remove_first after_first] in *.
    destruct (startswith (c :: s) (a :: old)).
    + rewrite app_nil_l, replace_scan_skip.
      cbn [length drop] in *.
      replace (S (length old) - 1)%nat with (length old) by lia.
      by apply replace_scan_absent.
    + f_equal. by apply IH.
Qed.

(** ** The matcher against the language of a pattern *)

Section MatcherFacts.
Variable ic : bool.

Lemma LangC_Lang (r : regex) : ∀ w rest caps caps',
  LangC ic r w rest caps caps' → Lang ic r w rest.
Proof.
  induction r as [l|cls|r1 IH1 r2 IH2|r1 IH1 r2 IH2|cls|cls|n r1 IH1|r1 IH1|];
    simpl; intros w rest caps caps' H.
  - by destruct H.
  - by destruct H.
  - destruct H as (w1 & w2 & c1 & -> & H1 & H2). exists w1, w2. eauto.
  - destruct H as [H|H]; eauto.
  - by destruct H.
  - by destruct H.
  - destruct H as (c1 & H & _). eauto.
  - destruct H as (-> & w1 & rest1 & -> & H). split; [done|]. eauto.
  - by destruct H.
Qed.

Lemma lit_rest_sound (l s s' : list N) :
  lit_rest ic l s = Some s' → ∃ w, s = w ++ s' ∧ lit_matches ic l w.
Proof.
  revert s. induction l as [|p l IH]; intros s; simpl.
  - intros [= ->]. exists []. split; [done|constructor].
  - destruct s as [|c s]; [done|].
    destruct (chr_match ic p c) eqn:E; [|done].
    intros H. destruct (IH _ H) as (w & -> & Hw).
    exists (c :: w). split; [done|by constructor].
Qed.

Lemma lit_rest_complete (l w s' : list N) :
  lit_matches ic l w → lit_rest ic l (w ++ s') = Some s'.
Proof.
  induction 1 as [|p c l w Hpc Hlw IH]; simpl; [done|]. by rewrite Hpc.
Qed.

Lemma star_greedy_sound {R} (cls : N → bool) (k : list N → option R) x :
  ∀ s, star_greedy cls s k = Some x →
       ∃ w s', s = w ++ s' ∧ all_in cls w ∧ k s' = Some x.
Proof.
  induction s as [|c s IH]; simpl; intros H.
  - exists [], []. split; [done|]. split; [constructor|done].
  - destruct (cls c) eqn:E.
    + destruct (star_greedy cls s k) as [y|] eqn:Es.
      * injection H as ->. destruct (IH eq_refl) as (w & s' & -> & Hw & Hk).
        exists (c :: w), s'. split; [done|]. split; [by constructor|done].
      * exists [], (c :: s). split; [done|]. split; [constructor|done].
    + exists [], (c :: s). split; [done|]. split; [constructor|done].
Qed.

Lemma star_lazy_sound {R} (cls : N → bool) (k : list N → option R) x :
  ∀ s, star_lazy cls s k = Some x →
       ∃ w s', s = w ++ s' ∧ all_in cls w ∧ k s' = Some x.
Proof.
  induction s as [|c s IH]; simpl; intros H.
  - destruct (k []) eqn:E; [|done]. injection H as ->.
    exists [], []. split; [done|]. split; [constructor|done].
  - destruct (k (c :: s)) eqn:E.
    + injection H as ->.
      exists [], (c :: s). split; [done|]. split; [constructor|done].
    + destruct (cls c) eqn:Ec; [|done].
      destruct (IH H) as (w & s' & -> & Hw & Hk).
      exists (c :: w), s'. split; [done|]. split; [by constructor|done].
Qed.

Lemma star_greedy_here {R} (cls : N → bool) (k : list N → option R) (s : list N) :
  is_Some (k s) → is_Some (star_greedy cls s k).
Proof.
  intros Hk. destruct s as [|c s]; simpl; [done|].
  destruct (cls c); [|done]. by destruct (star_greedy cls s k).
Qed.

Lemma star_greedy_complete {R} (cls : N → bool) (k : list N → option R)
    (w s' : list N) :
  all_in cls w → is_Some (k s') → is_Some (star_greedy cls (w ++ s') k).
Proof.
  intros Hw Hk. induction Hw as [|c w Hc Hw IH]; simpl.
  - by apply star_greedy_here.
  - rewrite Hc. destruct IH as [y ->]. by eexists.
Qed.

Lemma star_lazy_complete {R} (cls : N → bool) (k : list N → option R)
    (w s' : list N) :
  all_in cls w → is_Some (k s') → is_Some (star_lazy cls (w ++ s') k).
Proof.
  intros Hw Hk. induction Hw as [|c w Hc Hw IH]; simpl.
  - destruct s' as [|c s']; simpl; destruct Hk as [y ->]; by eexists.
  - destruct (k (c :: w ++ s')); [by eexists|]. by rewrite Hc.
Qed.

(** Soundness: a successful run matched some text of the language and
    handed the rest, with the captures of that match, to the
    continuation. *)
Lemma re_match_sound (r : regex) : ∀ s caps k x,
  re_match ic r s caps k = Some x →
  ∃ w s' caps', s = w ++ s' ∧ LangC ic r w s' caps caps' ∧ k s' caps' = Some x.
Proof.
  induction r as [l|cls|r1 IH1 r2 IH2|r1 IH1 r2 IH2|cls|cls|n r1 IH1|r1 IH1|];
    simpl; intros s caps k x H.
  - destruct (lit_rest ic l s) as [s'|] eqn:E; [|done].
    destruct (lit_rest_sound _ _ _ E) as (w & -> & Hw).
    exists w, s', caps. eauto.
  - destruct s as [|c s]; [done|]. destruct (cls c) eqn:E; [|done].
    exists [c], s, caps. split; [done|]. split; [|done]. split; [|done]. eauto.
  - destruct (IH1 _ _ _ _ H) as (w1 & s1 & c1 & -> & H1 & Hk1).
    destruct (IH2 _ _ _ _ Hk1) as (w2 & s2 & c2 & -> & H2 & Hk2).
    exists (w1 ++ w2), s2, c2. split; [by rewrite app_assoc|].
    split; [|done]. exists w1, w2, c1. eauto.
  - destruct (re_match ic r1 s caps k) as [y|] eqn:E.
    + injection H as ->.
      destruct (IH1 _ _ _ _ E) as (w & s' & c' & -> & H1 & Hk).
      exists w, s', c'. eauto.
    + destruct (IH2 _ _ _ _ H) as (w & s' & c' & -> & H2 & Hk).
      exists w, s', c'. eauto.
  - destruct (star_greedy_sound _ _ _ _ H) as (w & s' & -> & Hw & Hk).
    exists w, s', caps. eauto.
  - destruct (star_lazy_sound _ _ _ _ H) as (w & s' & -> & Hw & Hk).
    exists w, s', caps. eauto.
  - destruct (IH1 _ _ _ _ H) as (w & s' & c' & -> & H1 & Hk).
    rewrite length_app, Nat.add_sub, take_app_length in Hk.
    exists w, s', (<[n := w]> c'). eauto.
  - destruct (re_match ic r1 s caps (λ s' caps', Some (s', caps')))
      as [[s1 c1]|] eqn:E; [|done].
    destruct (IH1 _ _ _ _ E) as (w & s' & c' & -> & H1 & [= <- <-]).
    exists [], (w ++ s'), c'. split; [done|]. split; [|done].
    split; [done|]. eauto.
  - destruct s; [|done]. exists [], [], caps. eauto.
Qed.

(** Completeness: when the text starts with some match of the pattern
    after which the continuation succeeds (whatever the captures), the
    run succeeds. *)
Lemma re_match_complete (r : regex) : ∀ w s' caps k,
  Lang ic r w s' →
  (∀ caps', is_Some (k s' caps')) →
  is_Some (re_match ic r (w ++ s') caps k).
Proof.
  induction r as [l|cls|r1 IH1 r2 IH2|r1 IH1 r2 IH2|cls|cls|n r1 IH1|r1 IH1|];
    simpl; intros w s' caps k H Hk.
  - by rewrite (lit_rest_complete _ _ _ H).
  - destruct H as (c & -> & Hc). simpl. by rewrite Hc.
  - destruct H as (w1 & w2 & -> & H1 & H2). rewrite <- app_assoc.
    apply IH1; [done|]. intros c1. by apply IH2.
  - destruct H as [H|H].
    + destruct (IH1 w s' caps k H Hk) as [y ->]. by eexists.
    + destruct (re_match ic r1 (w ++ s') caps k); [by eexists|]. by apply IH2.
  - by apply star_greedy_complete.
  - by apply star_lazy_complete.
  - apply IH1; [done|]. intros c1. apply Hk.
  - destruct H as (-> & w1 & rest1 & -> & H). simpl.
    destruct (IH1 w1 rest1 caps (λ s' caps', Some (s', caps')) H) as [[s1 c1] ->];
      [by eexists|]. apply Hk.
  - destruct H as (-> & ->). simpl. apply Hk.
Qed.
End MatcherFacts.

(** ** Searching *)

Lemma match_here_sound (p : Pattern) (s w : list N) (caps : gmap nat (list N)) :
  match_here p s = Some (w, caps) →
  ∃ s', s = w ++ s' ∧ LangC (IGNORECASE p) (pattern p) w s' ∅ caps.
Proof.
  unfold match_here. intros H.
  destruct (re_match _ _ s ∅ _) as [[s' c]|] eqn:E; [|done].
  destruct (re_match_sound _ _ _ _ _ _ E) as (w0 & s0 & c0 & -> & HL & [= <- <-]).
  rewrite length_app, Nat.add_sub, take_app_length in H.
  injection H as <- <-. eauto.
Qed.

Lemma match_here_complete (p : Pattern) (w s' : list N) :
  Lang (IGNORECASE p) (pattern p) w s' → is_Some (match_here p (w ++ s')).
Proof.
  intros H. unfold match_here.
  destruct (re_match_complete (IGNORECASE p) (pattern p) w s' ∅
              (λ s1 c1, Some (s1, c1)) H) as [[s1 c1] ->]; by eexists.
Qed.

Lemma search_from_sound (p : Pattern) (s : list N) : ∀ pos m,
  search_from p pos s = Some m →
  ∃ pre s1, s = pre ++ s1 ∧ m_start m = (pos + length pre)%nat
            ∧ match_here p s1 = Some (group0 m, m_groups m).
Proof.
  induction s as [|c s IH]; intros pos m; simpl.
  - destruct (match_here p []) as [[w caps]|] eqn:E; [|done].
    intros [= <-]. exists [], []. simpl. split; [done|]. split; [lia|done].
  - destruct (match_here p (c :: s)) as [[w caps]|] eqn:E.
    + intros [= <-]. exists [], (c :: s). simpl. split; [done|]. split; [lia|done].
    + intros H. destruct (IH _ _ H) as (pre & s1 & -> & Hpos & Hm).
      exists (c :: pre), s1. simpl. split; [done|]. split; [lia|done].
Qed.

(** ** The title pattern finds markers only *)

Lemma digit_not_space (d : N) : digit d = true → isspace d = false.
Proof.
  unfold digit, isspace. intros [H1 H2]%andb_true_iff.
  apply N.leb_le in H1, H2.
  repeat match goal with
         | |- context [?a <=? ?b] => destruct (N.leb_spec a b); try lia
         | |- context [?a =? ?b] => destruct (N.eqb_spec a b); try lia
         end; reflexivity.
Qed.

Lemma lstrip_app_spaces (ws s : list N) :
  all_in isspace ws → lstrip (ws ++ s) = lstrip s.
Proof. induction 1 as [|c ws Hc Hws IH]; simpl; [done|]. by rewrite Hc. Qed.

Lemma marker_here_intro (kw k ws : list N) (d : N) (tail : list N) :
  lit_matches true kw k → all_in isspace ws → digit d = true →
  marker_here kw (k ++ ws ++ d :: tail) = true.
Proof.
  intros Hk Hws Hd. unfold marker_here.
  rewrite (lit_rest_complete true kw k _ Hk), lstrip_app_spaces by done.
  simpl. by rewrite (digit_not_space d Hd).
Qed.

Lemma contains_marker_intro (pre s : list N) :
  marker_here (py "Điều") s = true ∨ marker_here (py "Mục") s = true →
  contains_marker (pre ++ s) = true.
Proof.
  intros H. induction pre as [|c pre IH].
  - destruct s; cbn [app contains_marker]; destruct H as [-> | ->];
      by rewrite ?orb_true_r.
  - cbn [app contains_marker]. rewrite IH. by rewrite orb_true_r.
Qed.

(** A text of the marker pattern [\n+\s*kw\s*[0-9]+] ends in the keyword,
    whitespace and digits. *)
Lemma marker_pattern_lang (ic : bool) (kw x rest : list N) :
  Lang ic (Plus newline ⋅ Star isspace ⋅ Lit kw ⋅ Star isspace ⋅ Plus digit) x rest →
  ∃ lead k ws d ds,
    x = lead ++ k ++ ws ++ d :: ds
    ∧ lead ≠ [] ∧ all_in isspace lead
    ∧ lit_matches ic kw k ∧ all_in isspace ws ∧ digit d = true ∧ all_in digit ds.
Proof.
  simpl.
  intros (x1 & x2 & -> & (x3 & ws & -> & (x4 & k & -> & (x5 & ws0 & -> & Hn & Hws0)
            & Hk) & Hws) & (d' & ds & -> & (d & -> & Hd) & Hds)).
  destruct Hn as (n1 & ns & -> & (n & -> & Hn) & Hns).
  exists (([n] ++ ns) ++ ws0), k, ws, d, ds.
  split; [by rewrite <- !app_assoc|]. split; [done|].
  split; [|done].
  apply Forall_app. split; [|done].
  apply Forall_app. split.
  - constructor; [|constructor]. unfold newline, is_chr in Hn.
    apply N.eqb_eq in Hn. by subst.
  - eapply Forall_impl; [exact Hns|]. intros c Hc. unfold newline, is_chr in Hc.
    apply N.eqb_eq in Hc. by subst.
Qed.

Lemma title_pattern_lang (ic : bool) (g a b : regex) (w rest : list N) :
  Lang ic (Group 1 g ⋅ LookAhead (Group 2 a ∣ Group 3 b)) w rest →
  ∃ x rest1, rest = x ++ rest1 ∧ (Lang ic a x rest1 ∨ Lang ic b x rest1).
Proof.
  simpl. intros (w1 & w2 & -> & _ & -> & x & rest1 & -> & H).
  exists x, rest1. eauto.
Qed.

Lemma title_match_marker (pre w s' : list N) :
  Lang true (pattern title_regex) w s' → contains_marker (pre ++ w ++ s') = true.
Proof.
  unfold title_regex. cbn [pattern]. intros HL.
  destruct (title_pattern_lang _ _ _ _ _ _ HL) as (x & rest1 & -> & [H|H]);
    apply marker_pattern_lang in H
      as (lead & k & ws & d & ds & -> & _ & _ & Hk & Hws & Hd & _);
    replace (pre ++ w ++ (lead ++ k ++ ws ++ d :: ds) ++ rest1)
      with ((pre ++ w ++ lead) ++ k ++ ws ++ d :: (ds ++ rest1))
      by (by rewrite <- !app_assoc; simpl; rewrite <- ?app_assoc);
    apply contains_marker_intro; [left|right]; by apply marker_here_intro.
Qed.

(** C8, as the code has it: a body in which nowhere the Article or the
    Section keyword, written in any letter case, is followed by optional
    whitespace and a digit (a period is not asked for) gets an empty
    title, and its remainder is the body trimmed of leading and trailing
    whitespace. *)
Theorem no_marker_no_title (body : list N) :
  contains_marker body = false → split_title body = ([], strip body).
Proof.
  intros Hno. unfold split_title.
  destruct (search title_regex body) as [m|] eqn:E; [|done].
  exfalso.
  destruct (search_from_sound _ _ _ _ E) as (pre & s1 & -> & _ & Hm).
  destruct (match_here_sound _ _ _ _ Hm) as (s' & -> & HL).
  apply LangC_Lang in HL.
  rewrite (title_match_marker pre _ _ HL) in Hno. discriminate Hno.
Qed.

Lemma no_marker_no_title_witness :
  contains_marker (py " Quy định chung ") = false
  ∧ split_title (py " Quy định chung ") = ([], py "Quy định chung").
Proof.
  assert (H : contains_marker (py " Quy định chung ") = false)
    by (vm_compute; reflexivity).
  split; [exact H|].
  rewrite (no_marker_no_title _ H). vm_compute. reflexivity.
Defined.

(** ** Successive matches *)

Lemma finditer_from_cons (p : Pattern) (pos : nat) (c : N) (s : list N) :
  finditer_from p pos 0 (c :: s)
  = match match_here p (c :: s) with
    | Some (w, caps) => mkMatch pos w caps :: finditer_from p (S pos) (length w - 1) s
    | None => finditer_from p (S pos) 0 s
    end.
Proof. reflexivity. Qed.

Lemma finditer_from_skip (p : Pattern) (s : list N) : ∀ pos n,
  finditer_from p pos n s = finditer_from p (pos + n) 0 (drop n s).
Proof.
  induction s as [|c s IH]; intros pos [|n]; simpl; try done.
  - by rewrite Nat.add_0_r.
  - rewrite IH. by rewrite Nat.add_succ_r.
Qed.

(** The first match found by a scan starts where the pattern first
    matches, and the scan from there gives the same matches. *)
Lemma finditer_from_first (p : Pattern) (s : list N) : ∀ pos m0 ms,
  finditer_from p pos 0 s = m0 :: ms →
  ∃ pre s1, s = pre ++ s1 ∧ m_start m0 = (pos + length pre)%nat
            ∧ is_Some (match_here p s1)
            ∧ finditer_from p (pos + length pre) 0 s1 = m0 :: ms.
Proof.
  induction s as [|c s IH]; intros pos m0 ms; [done|].
  rewrite finditer_from_cons.
  destruct (match_here p (c :: s)) as [[w caps]|] eqn:E.
  - intros H. exists [], (c :: s). cbn [app length]. rewrite Nat.add_0_r.
    split; [done|]. split; [by injection H as <- _|].
    split; [by rewrite E|]. by rewrite finditer_from_cons, E.
  - intros H. destruct (IH _ _ _ H) as (pre & s1 & -> & Hpos & Hm & Hit).
    exists (c :: pre), s1. cbn [app length].
    replace (pos + S (length pre))%nat with (S pos + length pre)%nat by lia.
    done.
Qed.

(** ** Chapter matches *)

Lemma chuong_marker_lang (ic : bool) (kw x rest : list N) :
  Lang ic (Plus newline ⋅ Star isspace ⋅ Lit kw ⋅ Star isspace ⋅ Group 5 (Plus roman))
    x rest →
  ∃ nls ws0 k ws r rs,
    x = nls ++ ws0 ++ k ++ ws ++ r :: rs
    ∧ all_in newline nls ∧ all_in isspace ws0 ∧ lit_matches ic kw k
    ∧ all_in isspace ws ∧ roman r = true ∧ all_in roman rs.
Proof.
  simpl.
  intros (x1 & x2 & -> & (x3 & ws & -> & (x4 & k & -> & (x5 & ws0 & -> & Hn & Hws0)
            & Hk) & Hws) & (r' & rs & -> & (r & -> & Hr) & Hrs)).
  destruct Hn as (n1 & ns & -> & (n & -> & Hn) & Hns).
  exists (n :: ns), ws0, k, ws, r, rs.
  split; [by rewrite <- !app_assoc|].
  split; [by constructor|done].
Qed.

Lemma chuong_regex_lang_intro (nls ws0 k ws : list N) (r : N) (rs tail : list N) :
  all_in newline nls → all_in isspace ws0 → lit_matches false (py "Chương") k →
  all_in isspace ws → roman r = true → all_in roman rs →
  Lang false (pattern chuong_regex) (nls ++ ws0 ++ k ++ ws ++ r :: rs ++ tail) [].
Proof.
  intros Hn Hws0 Hk Hws Hr Hrs. unfold chuong_regex. cbn [pattern Lang].
  exists (nls ++ ws0 ++ k ++ ws ++ r :: rs ++ tail), []. split; [by rewrite app_nil_r|].
  split; [|split; [done|]; exists [], []; split; [done|]; by right].
  exists (nls ++ ws0 ++ k ++ ws ++ r :: rs), tail.
  split; [by rewrite <- !app_assoc|].
  split; [|by apply Forall_true].
  exists (nls ++ ws0 ++ k ++ ws ++ r :: rs), []. split; [by rewrite app_nil_r|].
  split; [|constructor].
  exists (nls ++ ws0), (k ++ ws ++ r :: rs). split; [by rewrite <- !app_assoc|].
  split; [by exists nls, ws0|].
  exists (k ++ ws), (r :: rs). split; [by rewrite <- !app_assoc|].
  split; [by exists k, ws|].
  unfold Plus. cbn [Lang]. exists [r], rs. split; [done|]. split; [|done]. by exists r.
Qed.

(** A match leaves alone the groups that its pattern does not have. *)
Lemma LangC_frame (ic : bool) (n : nat) (r : regex) : ∀ w rest caps caps',
  LangC ic r w rest caps caps' → n ∉ groups_of r → caps' !! n = caps !! n.
Proof.
  induction r as [l|cls|r1 IH1 r2 IH2|r1 IH1 r2 IH2|cls|cls|g r1 IH1|r1 IH1|];
    simpl; intros w rest caps caps' H Hn.
  - by destruct H as [_ ->].
  - by destruct H as [_ ->].
  - destruct H as (w1 & w2 & c1 & -> & H1 & H2).
    apply not_elem_of_app in Hn as [Hn1 Hn2].
    rewrite (IH2 _ _ _ _ H2 Hn2). by apply (IH1 _ _ _ _ H1).
  - apply not_elem_of_app in Hn as [Hn1 Hn2]. destruct H as [H|H]; eauto.
  - by destruct H as [_ ->].
  - by destruct H as [_ ->].
  - destruct H as (c1 & H & ->). apply not_elem_of_cons in Hn as [Hne Hn].
    rewrite lookup_insert_ne by done. eauto.
  - destruct H as (-> & w1 & rest1 & -> & H). eauto.
  - by destruct H as [_ ->].
Qed.

Lemma boundary_pattern_langC (ic : bool) (M LK : regex) (w rest : list N)
    (caps : gmap nat (list N)) :
  LangC ic (Star newline ⋅ Star isspace ⋅ Group 1 M ⋅ Star isspace
            ⋅ Group 3 (StarLazy any) ⋅ LookAhead LK) w rest ∅ caps →
  ∃ lead g1 ws body c1 x rest1,
    w = lead ++ g1 ++ ws ++ body
    ∧ all_in isspace lead ∧ all_in isspace ws
    ∧ LangC ic M g1 (ws ++ body ++ rest) ∅ c1
    ∧ rest = x ++ rest1
    ∧ LangC ic LK x rest1 (<[3%nat := body]> (<[1%nat := g1]> c1)) caps.
Proof.
  simpl.
  intros (w1 & w2 & caps1 & -> & (w3 & body & caps2 & -> & (w5 & ws & caps3 & ->
            & (w7 & g1 & caps4 & -> & (nls & ws0 & caps5 & -> & (Hn & ->) & Hws0 & ->)
               & c1 & HM & ->) & Hws & ->) & caps6 & (_ & ->) & ->)
          & -> & x & rest1 & -> & HLK).
  exists (nls ++ ws0), g1, ws, body, c1, x, rest1.
  rewrite app_nil_r in *. split; [by rewrite <- !app_assoc|].
  split; [|done].
  apply Forall_app. split; [|done].
  eapply Forall_impl; [exact Hn|]. intros c Hc. unfold newline, is_chr in Hc.
  apply N.eqb_eq in Hc. by subst.
Qed.

Lemma chuong_match_anatomy (w rest : list N) (caps : gmap nat (list N)) :
  LangC false (pattern chuong_regex) w rest ∅ caps →
  (∃ lead ws,
     w = lead ++ default [] (caps !! 1%nat) ++ ws ++ default [] (caps !! 3%nat)
     ∧ all_in isspace lead ∧ all_in isspace ws ∧ default [] (caps !! 1%nat) ≠ [])
  ∧ (rest = [] ∨ Lang false (pattern chuong_regex) rest []).
Proof.
  unfold chuong_regex at 1. cbn [pattern]. intros H.
  apply boundary_pattern_langC
    in H as (lead & g1 & ws & body & c1 & x & rest1 & -> & Hlead & Hws & HM & -> & HLK).
  assert (H1 : caps !! 1%nat = Some g1).
  { rewrite (LangC_frame _ 1 _ _ _ _ _ HLK).
    - rewrite lookup_insert_ne by done. by rewrite lookup_insert_eq.
    - cbn. rewrite !elem_of_cons, elem_of_nil. intros [|[|]]; done. }
  assert (H3 : caps !! 3%nat = Some body).
  { rewrite (LangC_frame _ 3 _ _ _ _ _ HLK).
    - by rewrite lookup_insert_eq.
    - cbn. rewrite !elem_of_cons, elem_of_nil. intros [|[|]]; done. }
  rewrite H1, H3. cbn [default]. split.
  - exists lead, ws. split; [done|]. split; [done|]. split; [done|].
    apply LangC_Lang in HM. cbn [Lang] in HM.
    destruct HM as (w1 & w2 & -> & (k & ws1 & -> & Hk & _) & _).
    apply Forall2_length in Hk. intros Hnil.
    apply (f_equal length) in Hnil. unfold id in Hnil.
    rewrite !length_app in Hnil.
    change (length (py "Chương")) with 6%nat in Hk. simpl in Hnil. lia.
  - apply LangC_Lang in HLK. cbn [Lang] in HLK. destruct HLK as [HX|[-> ->]].
    + right. apply chuong_marker_lang in HX
        as (nls & ws0 & k & ws2 & r & rs & -> & Hn & Hws0 & Hk & Hws2 & Hr & Hrs).
      rewrite <- !app_assoc. cbn [app].
      by apply chuong_regex_lang_intro.
    + by left.
Qed.

Lemma chuong_match_here (s w : list N) (caps : gmap nat (list N)) :
  match_here chuong_regex s = Some (w, caps) →
  ∃ c w' s', w = c :: w' ∧ s = c :: w' ++ s'
    ∧ chapter_layout (mkMatch 0 w caps)
    ∧ (s' = [] ∨ is_Some (match_here chuong_regex s')).
Proof.
  intros H. destruct (match_here_sound _ _ _ _ H) as (s' & -> & HL).
  apply chuong_match_anatomy in HL as [(lead & ws & Hw & Hlead & Hws & Hne) Hnext].
  assert (Hlay : chapter_layout (mkMatch 0 w caps)) by (by exists lead, ws).
  destruct w as [|c w'].
  { exfalso. symmetry in Hw. apply app_eq_nil in Hw as [_ Hw].
    apply app_eq_nil in Hw as [Hw _]. done. }
  exists c, w', s'. split; [done|]. split; [done|]. split; [done|].
  destruct Hnext as [->|HL]; [by left|right].
  rewrite <- (app_nil_r s'). by apply match_here_complete.
Qed.

(** From a position where [chuong_regex] matches, the successive matches
    tile the rest of the text. *)
Lemma chuong_chain (n : nat) : ∀ (s : list N) (pos : nat),
  (length s ≤ n)%nat → is_Some (match_here chuong_regex s) →
  concat (map group0 (finditer_from chuong_regex pos 0 s)) = s
  ∧ Forall chapter_layout (finditer_from chuong_regex pos 0 s).
Proof.
  induction n as [|n IH]; intros s pos Hlen [[w caps] Hm];
    destruct (chuong_match_here _ _ _ Hm) as (c & w' & s' & -> & -> & Hlay & Hnext);
    simpl in Hlen; [lia|].
  rewrite finditer_from_cons, Hm, finditer_from_skip.
  cbn [length]. rewrite Nat.sub_succ, Nat.sub_0_r, drop_app_length.
  assert (Hlay' : chapter_layout (mkMatch pos (c :: w') caps)) by exact Hlay.
  destruct Hnext as [->|Hs'].
  - simpl. rewrite !app_nil_r. split; [done|]. by constructor.
  - rewrite length_app in Hlen.
    destruct (IH s' (S pos + length w')%nat) as [Hcat Hall]; [lia|done|].
    cbn [map concat group0]. rewrite Hcat. split; [done|]. by constructor.
Qed.

(** C4, refuted as stated: for a document of two chapters and no section
    or article, the concatenated chapter bodies are not the text that
    follows the first chapter marker. *)
Lemma chapter_bodies_not_partition :
  ¬ (∀ (text : list N) (m0 : Match) (ms : list Match),
       findall muc_regex text = [] → findall dieu_regex text = [] →
       findall chuong_regex text = m0 :: ms →
       concat (map (λ m, group m 3) (m0 :: ms)) = after_first text (group m0 1)).
Proof.
  intros H.
  destruct (findall chuong_regex two_chapters) as [|m0 ms] eqn:E;
    [vm_compute in E; discriminate E|].
  assert (Hmuc : findall muc_regex two_chapters = []) by (vm_compute; reflexivity).
  assert (Hdieu : findall dieu_regex two_chapters = []) by (vm_compute; reflexivity).
  specialize (H two_chapters m0 ms Hmuc Hdieu E).
  vm_compute in E. injection E as <- <-.
  vm_compute in H. discriminate H.
Qed.

(** C4, as the code has it: when [chuong_regex] finds chapters, the whole
    match spans, in order, make up the text from the start of the first
    match to its end, with no gap and no overlap; each span is laid out as
    whitespace, the chapter marker, whitespace and the chapter body, so
    the bodies are disjoint pieces of the text, in order, that leave out
    the markers and the whitespace around them. *)
Theorem chapter_spans_partition (text : list N) (m0 : Match) (ms : list Match) :
  findall chuong_regex text = m0 :: ms →
  concat (map group0 (m0 :: ms)) = drop (m_start m0) text
  ∧ Forall chapter_layout (m0 :: ms).
Proof.
  unfold findall. intros H.
  destruct (finditer_from_first _ _ _ _ _ H) as (pre & s1 & -> & Hpos & Hm & Hit).
  destruct (chuong_chain (length s1) s1 (0 + length pre) (le_n _) Hm) as [Hcat Hall].
  rewrite Hit in Hcat, Hall. split; [|done].
  rewrite Hcat, Hpos. simpl. by rewrite drop_app_length.
Qed.

Lemma chapter_spans_partition_witness :
  ∃ m0 ms,
    findall chuong_regex two_chapters = m0 :: ms
    ∧ concat (map group0 (m0 :: ms)) = drop (m_start m0) two_chapters.
Proof.
  destruct (findall chuong_regex two_chapters) as [|m0 ms] eqn:E;
    [vm_compute in E; discriminate E|].
  exists m0, ms. split; [reflexivity|].
  exact (proj1 (chapter_spans_partition two_chapters m0 ms E)).
Defined.

(** ** Matches are never empty *)

Lemma Lang_min_length (ic : bool) (r : regex) : ∀ w rest,
  Lang ic r w rest → (min_length r ≤ length w)%nat.
Proof.
  induction r as [l|cls|r1 IH1 r2 IH2|r1 IH1 r2 IH2|cls|cls|n r1 IH1|r1 IH1|];
    simpl; intros w rest H; try lia.
  - apply Forall2_length in H. lia.
  - destruct H as (c & -> & _). simpl. lia.
  - destruct H as (w1 & w2 & -> & H1 & H2). rewrite length_app.
    apply IH1 in H1. apply IH2 in H2. lia.
  - destruct H as [H|H]; [apply IH1 in H|apply IH2 in H]; lia.
  - eauto.
Qed.

(** X22: every match of a pattern of [parse] (the four boundary patterns
    and the two cleaning patterns) takes at least one character, so the
    scans of [finditer_from] and [sub_scan] always advance past a
    match. *)
Lemma parse_patterns_never_empty (p : Pattern) (s w : list N)
    (caps : gmap nat (list N)) :
  p ∈ parse_patterns → match_here p s = Some (w, caps) → w ≠ [].
Proof.
  intros Hp Hm.
  destruct (match_here_sound _ _ _ _ Hm) as (s' & _ & HL).
  apply LangC_Lang, Lang_min_length in HL.
  assert (Hmin : (1 ≤ min_length (pattern p))%nat).
  { unfold parse_patterns in Hp.
    repeat (apply elem_of_cons in Hp as [->|Hp]; [vm_compute; lia|]).
    by apply elem_of_nil in Hp. }
  destruct w; [simpl in HL; lia|done].
Qed.

(** ** What the boundary patterns detect *)

Lemma lit_matches_exact (l k : list N) : lit_matches false l k ↔ k = l.
Proof.
  split.
  - induction 1 as [|p c l k Hpc Hlk IH]; [done|].
    simpl in Hpc. apply N.eqb_eq in Hpc. by subst.
  - intros ->. induction l as [|p l IH]; constructor; [|done].
    simpl. apply N.eqb_refl.
Qed.

Lemma finditer_from_found (p : Pattern) (pre s1 : list N) : ∀ pos,
  is_Some (match_here p s1) → s1 ≠ [] →
  finditer_from p pos 0 (pre ++ s1) ≠ [].
Proof.
  induction pre as [|c pre IH]; intros pos Hm Hne.
  - destruct s1 as [|c s1]; [done|]. cbn [app].
    rewrite finditer_from_cons. by destruct Hm as [[w caps] ->].
  - cbn [app]. rewrite finditer_from_cons.
    destruct (match_here p (c :: pre ++ s1)) as [[w caps]|]; [done|].
    by apply IH.
Qed.

(** [chuong_regex] finds a chapter exactly when the chapter keyword,
    optional whitespace and a roman-numeral letter occur in the text. *)
Lemma chapter_detected_iff (text : list N) :
  findall chuong_regex text ≠ []
  ↔ ∃ pre ws r tail,
      text = pre ++ py "Chương" ++ ws ++ r :: tail
      ∧ all_in isspace ws ∧ roman r = true.
Proof.
  split.
  - intros H. destruct (findall chuong_regex text) as [|m0 ms] eqn:E; [done|].
    destruct (finditer_from_first _ _ _ _ _ E) as (pre & s1 & -> & _ & [[w caps] Hm] & _).
    destruct (match_here_sound _ _ _ _ Hm) as (s' & -> & HL).
    unfold chuong_regex in HL. cbn [pattern IGNORECASE] in HL.
    apply boundary_pattern_langC
      in HL as (lead & g1 & ws & body & c1 & x & rest1 & -> & _ & _ & HM & _ & _).
    apply LangC_Lang in HM. cbn [Lang] in HM.
    destruct HM as (w1 & w2 & -> & (k & ws1 & -> & Hk & Hws1) & r' & rs & ->
                    & (r & -> & Hr) & _).
    apply lit_matches_exact in Hk as ->.
    exists (pre ++ lead), ws1, r, (rs ++ ws ++ body ++ s').
    split; [|done]. rewrite <- !app_assoc. cbn [app]. by rewrite <- ?app_assoc.
  - intros (pre & ws & r & tail & -> & Hws & Hr).
    apply finditer_from_found.
    + rewrite <- (app_nil_r (_ ++ _ ++ _ :: _)).
      apply match_here_complete.
      apply (chuong_regex_lang_intro [] [] (py "Chương") ws r [] tail);
        [constructor|constructor|by apply lit_matches_exact|done|done|constructor].
    + intros Hnil. apply (f_equal length) in Hnil.
      rewrite !length_app in Hnil. simpl in Hnil. lia.
Qed.

Lemma muc_pattern_lang (ic : bool) (kw : list N) (LK : regex) (w rest : list N) :
  Lang ic (Star newline ⋅ Star isspace ⋅ Group 1 (Lit kw ⋅ Star isspace ⋅ Plus digit)
           ⋅ Group 2 (PlusLazy any) ⋅ LookAhead LK) w rest →
  ∃ lead k ws d ds b bs,
    w = lead ++ k ++ ws ++ d :: ds ++ b :: bs
    ∧ lit_matches ic kw k ∧ all_in isspace ws ∧ digit d = true.
Proof.
  simpl.
  intros (w1 & w2 & -> & (w3 & body & -> & (lead & g1 & -> & _
            & g2 & ds' & -> & (k & ws & -> & Hk & Hws) & d' & ds & -> & (d & -> & Hd) & _)
          & b' & bs & -> & (b & -> & _) & _) & -> & _).
  exists lead, k, ws, d, ds, b, bs.
  split; [|done]. rewrite app_nil_r, <- !app_assoc. cbn [app].
  by rewrite <- ?app_assoc.
Qed.

Lemma muc_regex_lang_intro (ws : list N) (d c : N) (tail : list N) :
  all_in isspace ws → digit d = true →
  Lang false (pattern muc_regex) (py "Mục" ++ ws ++ d :: c :: tail) [].
Proof.
  intros Hws Hd. unfold muc_regex, Plus, PlusLazy. cbn [pattern Lang].
  exists (py "Mục" ++ ws ++ d :: c :: tail), []. split; [by rewrite app_nil_r|].
  split; [|split; [done|]; exists [], []; split; [done|]; by right].
  exists (py "Mục" ++ ws ++ [d]), (c :: tail).
  split; [by rewrite <- !app_assoc|].
  split.
  - exists [], (py "Mục" ++ ws ++ [d]). split; [done|].
    split; [exists [], []; split; [done|]; split; constructor|].
    exists (py "Mục" ++ ws), [d]. split; [by rewrite <- !app_assoc|].
    split; [exists (py "Mục"), ws; split; [done|]; split; [|done];
            by apply lit_matches_exact|].
    exists [d], []. split; [done|]. split; [by exists d|constructor].
  - exists [c], tail. split; [done|]. split; [by exists c|by apply Forall_true].
Qed.

(** [muc_regex] finds a section exactly when the section keyword,
    optional whitespace and a digit occur in the text with at least one
    more character after that digit. *)
Lemma section_detected_iff (text : list N) :
  findall muc_regex text ≠ []
  ↔ ∃ pre ws d c tail,
      text = pre ++ py "Mục" ++ ws ++ d :: c :: tail
      ∧ all_in isspace ws ∧ digit d = true.
Proof.
  split.
  - intros H. destruct (findall muc_regex text) as [|m0 ms] eqn:E; [done|].
    destruct (finditer_from_first _ _ _ _ _ E) as (pre & s1 & -> & _ & [[w caps] Hm] & _).
    destruct (match_here_sound _ _ _ _ Hm) as (s' & -> & HL).
    apply LangC_Lang in HL. unfold muc_regex in HL. cbn [pattern IGNORECASE] in HL.
    apply muc_pattern_lang
      in HL as (lead & k & ws & d & ds & b & bs & -> & Hk & Hws & Hd).
    apply lit_matches_exact in Hk as ->.
    destruct ds as [|d2 ds].
    + exists (pre ++ lead), ws, d, b, (bs ++ s').
      split; [|done]. rewrite <- !app_assoc. cbn [app]. by rewrite <- ?app_assoc.
    + exists (pre ++ lead), ws, d, d2, (ds ++ b :: bs ++ s').
      split; [|done]. rewrite <- !app_assoc. cbn [app].
      rewrite <- !app_assoc. cbn [app]. by rewrite <- ?app_assoc.
  - intros (pre & ws & d & c & tail & -> & Hws & Hd).
    apply finditer_from_found.
    + rewrite <- (app_nil_r (_ ++ _ ++ _ :: _)).
      apply match_here_complete. by apply muc_regex_lang_intro.
    + intros Hnil. apply (f_equal length) in Hnil.
      rewrite !length_app in Hnil. simpl in Hnil. lia.
Qed.

(** * Further properties of the segmentation *)

(** ** Every match of a scan is a match of the pattern *)

Lemma finditer_from_elem (p : Pattern) (s : list N) : ∀ pos skip m,
  m ∈ finditer_from p pos skip s →
  ∃ pre s1, s = pre ++ s1 ∧ match_here p s1 = Some (group0 m, m_groups m).
Proof.
  induction s as [|c s IH]; intros pos skip m Hm.
  - by apply elem_of_nil in Hm.
  - destruct skip as [|n].
    + rewrite finditer_from_cons in Hm.
      destruct (match_here p (c :: s)) as [[w caps]|] eqn:E.
      * apply elem_of_cons in Hm as [->|Hm].
        -- by exists [], (c :: s).
        -- destruct (IH _ _ _ Hm) as (pre & s1 & -> & H1). by exists (c :: pre), s1.
      * destruct (IH _ _ _ Hm) as (pre & s1 & -> & H1). by exists (c :: pre), s1.
    + simpl in Hm.
      destruct (IH _ _ _ Hm) as (pre & s1 & -> & H1). by exists (c :: pre), s1.
Qed.

(** ** Character classes and trimming *)

Lemma py_chuong : py "Chương" = [0x43; 0x68; 0x1B0; 0x1A1; 0x6E; 0x67].
Proof. reflexivity. Qed.

Lemma py_muc : py "Mục" = [0x4D; 0x1EE5; 0x63].
Proof. reflexivity. Qed.

Lemma py_dieu : py "Điều" = [0x110; 0x69; 0x1EC1; 0x75].
Proof. reflexivity. Qed.

Lemma one_of_elem (w : list N) (c : N) : one_of w c = true → c ∈ w.
Proof.
  unfold one_of. induction w as [|a w IH]; simpl; [done|].
  intros [H|H]%orb_true_iff.
  - apply N.eqb_eq in H as ->. apply list_elem_of_here.
  - apply list_elem_of_further. by apply IH.
Qed.

Lemma roman_not_space (c : N) : roman c = true → isspace c = false.
Proof.
  intros H. apply one_of_elem in H.
  repeat (apply elem_of_cons in H as [->|H]; [reflexivity|]).
  by apply elem_of_nil in H.
Qed.

Lemma strip_id (s : list N) : no_lead s → no_lead (reverse s) → strip s = s.
Proof.
  intros H1 H2. unfold strip. rewrite (lstrip_id s H1). by apply rstrip_id.
Qed.

(** A text that ends in a non-empty run of non-whitespace characters has
    nothing to trim on the right. *)
Lemma no_lead_reverse_tail (cls : N → bool) (x t : list N) :
  (∀ c, cls c = true → isspace c = false) →
  all_in cls t → t ≠ [] → no_lead (reverse (x ++ t)).
Proof.
  intros Hcls Ht Hne. rewrite reverse_app.
  destruct (reverse t) as [|c r] eqn:E.
  - apply (f_equal reverse) in E. rewrite reverse_involutive in E. done.
  - simpl. apply Hcls.
    assert (Hc : c ∈ t) by (rewrite <- elem_of_reverse, E; apply list_elem_of_here).
    unfold all_in in Ht. rewrite Forall_forall in Ht. by apply Ht.
Qed.

(** ** What the groups of the boundary patterns hold *)

Lemma group_lookup_frame (ic : bool) (n : nat) (r : regex) (x rest : list N)
    (c c' : gmap nat (list N)) (g : list N) :
  LangC ic r x rest c c' → n ∉ groups_of r → c !! n = Some g → c' !! n = Some g.
Proof. intros H Hn Hc. by rewrite (LangC_frame _ _ _ _ _ _ _ H Hn). Qed.

Lemma chuong_group1 (w rest : list N) (caps : gmap nat (list N)) :
  LangC false (pattern chuong_regex) w rest ∅ caps →
  chapter_id (default [] (caps !! 1%nat)).
Proof.
  unfold chuong_regex. cbn [pattern]. intros H.
  apply boundary_pattern_langC
    in H as (lead & g1 & ws & body & c1 & x & rest1 & -> & _ & _ & HM & -> & HLK).
  assert (H1 : caps !! 1%nat = Some g1).
  { apply (group_lookup_frame _ _ _ _ _ _ _ _ HLK).
    - cbn. rewrite !elem_of_cons, elem_of_nil. intros [|[|]]; done.
    - rewrite lookup_insert_ne by done. by rewrite lookup_insert_eq. }
  rewrite H1. cbn [default].
  apply LangC_Lang in HM. cbn [Lang] in HM.
  destruct HM as (w1 & w2 & -> & (k & ws1 & -> & Hk & Hws1) & r' & rs & ->
                  & (r & -> & Hr) & Hrs).
  apply lit_matches_exact in Hk as ->.
  exists ws1, ([r] ++ rs). split; [by rewrite <- !app_assoc|].
  split; [done|]. split; [by constructor|done].
Qed.

Lemma newline_all_space (l : list N) : all_in newline l → all_in isspace l.
Proof.
  intros H. eapply Forall_impl; [exact H|]. intros c Hc.
  unfold newline, is_chr in Hc. apply N.eqb_eq in Hc. by subst.
Qed.

Lemma muc_pattern_langC (ic : bool) (M B LK : regex) (w rest : list N)
    (caps : gmap nat (list N)) :
  LangC ic (Star newline ⋅ Star isspace ⋅ Group 1 M ⋅ Group 2 B ⋅ LookAhead LK)
    w rest ∅ caps →
  ∃ lead g1 body c1 c2 x rest1,
    w = lead ++ g1 ++ body
    ∧ all_in isspace lead
    ∧ LangC ic M g1 (body ++ rest) ∅ c1
    ∧ LangC ic B body rest (<[1%nat := g1]> c1) c2
    ∧ rest = x ++ rest1
    ∧ LangC ic LK x rest1 (<[2%nat := body]> c2) caps.
Proof.
  simpl.
  intros (w1 & w2 & caps1 & -> & (w3 & body & caps2 & -> & (w5 & g1 & caps3 & ->
            & (nls & ws0 & caps5 & -> & (Hn & ->) & Hws0 & ->)
            & c1 & HM & ->) & c2 & HB & ->)
          & -> & x & rest1 & -> & HLK).
  exists (nls ++ ws0), g1, body, c1, c2, x, rest1.
  rewrite app_nil_r in *. split; [by rewrite <- !app_assoc|].
  split; [|done]. apply Forall_app. split; [by apply newline_all_space|done].
Qed.

Lemma muc_group1 (w rest : list N) (caps : gmap nat (list N)) :
  LangC false (pattern muc_regex) w rest ∅ caps →
  section_id (default [] (caps !! 1%nat)).
Proof.
  unfold muc_regex. cbn [pattern]. intros H.
  apply muc_pattern_langC
    in H as (lead & g1 & body & c1 & c2 & x & rest1 & -> & _ & HM & HB & -> & HLK).
  assert (H1 : caps !! 1%nat = Some g1).
  { apply (group_lookup_frame _ _ _ _ _ _ _ _ HLK).
    - cbn. rewrite !elem_of_cons, elem_of_nil. intros [|[|[|]]]; done.
    - rewrite lookup_insert_ne by done.
      apply (group_lookup_frame _ _ _ _ _ _ _ _ HB).
      + cbn. apply not_elem_of_nil.
      + by rewrite lookup_insert_eq. }
  rewrite H1. cbn [default].
  apply LangC_Lang in HM. cbn [Lang] in HM.
  destruct HM as (w1 & w2 & -> & (k & ws1 & -> & Hk & Hws1) & d' & ds & ->
                  & (d & -> & Hd) & Hds).
  apply lit_matches_exact in Hk as ->.
  exists ws1, ([d] ++ ds). split; [by rewrite <- !app_assoc|].
  split; [done|]. split; [by constructor|done].
Qed.

Lemma dieu_pattern_langC (ic : bool) (M LK : regex) (w rest : list N)
    (caps : gmap nat (list N)) :
  LangC ic (Star newline ⋅ Star isspace ⋅ Group 1 M ⋅ LookAhead LK) w rest ∅ caps →
  ∃ lead g1 c1 x rest1,
    w = lead ++ g1
    ∧ all_in isspace lead
    ∧ LangC ic M g1 rest ∅ c1
    ∧ rest = x ++ rest1
    ∧ LangC ic LK x rest1 (<[1%nat := g1]> c1) caps.
Proof.
  simpl.
  intros (w1 & w2 & caps1 & -> & (w5 & g1 & caps3 & ->
            & (nls & ws0 & caps5 & -> & (Hn & ->) & Hws0 & ->)
            & c1 & HM & ->)
          & -> & x & rest1 & -> & HLK).
  exists (nls ++ ws0), g1, c1, x, rest1.
  rewrite app_nil_r in *. split; [done|].
  split; [|done]. apply Forall_app. split; [by apply newline_all_space|done].
Qed.

(** The article group: the keyword, whitespace, digits, backslashes, dots
    and at least one more character. *)
Lemma dieu_group1 (w rest : list N) (caps : gmap nat (list N)) :
  LangC false (pattern dieu_regex) w rest ∅ caps →
  ∃ ws ds bs dots body,
    default [] (caps !! 1%nat) = py "Điều" ++ ws ++ ds ++ bs ++ dots ++ body
    ∧ all_in isspace ws ∧ all_in digit ds ∧ all_in backslash bs
    ∧ all_in dot dots ∧ dots ≠ [] ∧ body ≠ []
    ∧ ∃ lead, w = lead ++ default [] (caps !! 1%nat) ∧ all_in isspace lead.
Proof.
  unfold dieu_regex. cbn [pattern]. intros H.
  apply dieu_pattern_langC
    in H as (lead & g1 & c1 & x & rest1 & -> & Hlead & HM & -> & HLK).
  assert (H1 : caps !! 1%nat = Some g1).
  { apply (group_lookup_frame _ _ _ _ _ _ _ _ HLK).
    - cbn. apply not_elem_of_nil.
    - by rewrite lookup_insert_eq. }
  rewrite H1. cbn [default].
  apply LangC_Lang in HM. unfold Plus, PlusLazy in HM. cbn [Lang] in HM.
  destruct HM as (w1 & body & -> & (w2 & dots & -> & (w3 & bs & -> & (w4 & ds & ->
              & (k & ws & -> & Hk & Hws) & Hds) & Hbs)
              & (d1 & dr & -> & (d & -> & Hd) & Hdr))
            & (b1 & br & -> & (b & -> & _) & _)).
  apply lit_matches_exact in Hk as ->.
  exists ws, ds, bs, ([d] ++ dr), ([b] ++ br).
  split; [by rewrite <- !app_assoc|].
  repeat (split; [done|]). split; [by constructor|].
  split; [done|]. split; [done|]. by exists lead.
Qed.

(** ** Tidy titles and trimmed remainders *)

Lemma clean_title_tidy (x : list N) : tidy (clean_title x).
Proof.
  unfold tidy. set (t := re_sub decoration_regex [] x).
  split; [|split].
  - unfold clean_title. fold t. apply Forall_forall. intros c Hc.
    apply strip_incl in Hc. revert c Hc. apply Forall_forall.
    apply (re_sub_whitespace_chars _ (length t)); [done|lia|].
    eapply Forall_impl; [apply re_sub_decoration_clean|].
    intros c Hc. simpl in Hc. by rewrite Hc.
  - unfold clean_title. fold t. apply ws_normal_strip.
    by apply (re_sub_whitespace_normal (length t)).
  - unfold clean_title. apply strip_fixed.
Qed.

Lemma tidy_nil : tidy [].
Proof. split; [constructor|]. split; [exact I|reflexivity]. Qed.

(** X1: whatever the body, the title that the title block returns has no
    decorative character, has whitespace only as single spaces between
    other characters and has nothing to trim; and the remainder it passes
    down has nothing to trim either. *)
Theorem split_title_tidy (body : list N) :
  tidy (split_title body).1 ∧ strip (split_title body).2 = (split_title body).2.
Proof.
  unfold split_title. destruct (search title_regex body) as [m|]; simpl.
  - split; [apply clean_title_tidy|apply strip_fixed].
  - split; [apply tidy_nil|apply strip_fixed].
Qed.

Lemma startswith_app (a y : list N) : startswith (a ++ y) a = true.
Proof. induction a as [|c a IH]; simpl; [done|]. by rewrite N.eqb_refl. Qed.

Lemma nonspace_prefix_kept (a : list N) : ∀ x r w,
  a ++ x = r ++ w → all_in (λ c, negb (isspace c)) a → all_in isspace w →
  ∃ y, r = a ++ y.
Proof.
  induction a as [|c a IH]; intros x r w Heq Ha Hw; [by exists r|].
  apply Forall_cons in Ha as [Hc Ha].
  destruct r as [|c' r].
  - simpl in Heq. subst w. apply Forall_cons in Hw as [Hc' _].
    rewrite Hc' in Hc. done.
  - injection Heq as <- Heq. destruct (IH _ _ _ Heq Ha Hw) as (y & ->). by exists y.
Qed.

Lemma strip_keeps_prefix (a x : list N) :
  a ≠ [] → all_in (λ c, negb (isspace c)) a → ∃ y, strip (a ++ x) = a ++ y.
Proof.
  intros Hne Ha. unfold strip.
  rewrite (lstrip_id (a ++ x)).
  - destruct (rstrip_split (a ++ x)) as (w & Heq & Hw).
    by apply (nonspace_prefix_kept a x _ w).
  - destruct a as [|c a]; [done|]. apply Forall_cons in Ha as [Hc _].
    simpl. by destruct (isspace c).
Qed.

Lemma chapter_id_trimmed (i : list N) : chapter_id i → strip i = i.
Proof.
  intros (ws & rs & -> & Hws & Hrs & Hne). apply strip_id.
  - by rewrite py_chuong.
  - rewrite app_assoc. by apply (no_lead_reverse_tail roman _ _ roman_not_space).
Qed.

Lemma section_id_trimmed (i : list N) : section_id i → strip i = i.
Proof.
  intros (ws & ds & -> & Hws & Hds & Hne). apply strip_id.
  - by rewrite py_muc.
  - rewrite app_assoc. by apply (no_lead_reverse_tail digit _ _ digit_not_space).
Qed.

Lemma article_text_intro (r : list N) :
  article_text (strip (replace (py "Điều" ++ r) (py "*") [])).
Proof.
  split; [|apply strip_fixed].
  change (py "*") with [0x2A]. rewrite py_dieu. unfold replace.
  cbn [app replace_scan startswith N.eqb Pos.eqb andb length Nat.sub].
  destruct (strip_keeps_prefix [0x110; 0x69; 0x1EC1; 0x75]
              (replace_scan [0x2A] [] 0 r)) as (y & Hy);
    [done|by repeat constructor|].
  cbn [app] in Hy. rewrite Hy. reflexivity.
Qed.

(** ** The invariant of the trees *)

Lemma Forall_subnodes_map {A} (P : node → Prop) (f : A → node) (l : list A) :
  (∀ x, x ∈ l → Forall P (subnodes (f x))) →
  Forall P (flat_map subnodes (map f l)).
Proof.
  induction l as [|x l IH]; intros H; simpl; [constructor|].
  apply Forall_app. split.
  - apply H, list_elem_of_here.
  - apply IH. intros y Hy. by apply H, list_elem_of_further.
Qed.

Lemma dieu_node_ok (s : list N) (dieu : Match) :
  dieu ∈ findall dieu_regex s → Forall node_ok (subnodes (dieu_node dieu)).
Proof.
  intros Hin. destruct (finditer_from_elem _ _ _ _ _ Hin) as (pre & s1 & _ & Hm).
  destruct (match_here_sound _ _ _ _ Hm) as (s' & _ & HL).
  apply dieu_group1 in HL as (ws & ds & bs & dots & body & Hg & _).
  constructor; [|constructor]. unfold dieu_node, group. rewrite Hg.
  split; [done|]. apply article_text_intro.
Qed.

Lemma muc_node_ok (s : list N) (muc : Match) :
  muc ∈ findall muc_regex s → Forall node_ok (subnodes (muc_node muc)).
Proof.
  intros Hin. destruct (finditer_from_elem _ _ _ _ _ Hin) as (pre & s1 & _ & Hm).
  destruct (match_here_sound _ _ _ _ Hm) as (s' & _ & HL).
  apply muc_group1 in HL.
  destruct (muc_node_shape muc) as (title & body & -> & Hsplit).
  rewrite subnodes_division. constructor.
  - split.
    + pose proof (split_title_tidy (group muc 2)) as [Ht _]. by rewrite Hsplit in Ht.
    + right. split; [done|]. split; [|apply dieu_nodes_are_articles].
      unfold group. by rewrite (section_id_trimmed _ HL).
  - apply Forall_subnodes_map. intros d Hd. by apply (dieu_node_ok body).
Qed.

Lemma chuong_node_ok (s : list N) (chuong : Match) :
  chuong ∈ findall chuong_regex s → Forall node_ok (subnodes (chuong_node chuong)).
Proof.
  intros Hin. destruct (finditer_from_elem _ _ _ _ _ Hin) as (pre & s1 & _ & Hm).
  destruct (match_here_sound _ _ _ _ Hm) as (s' & _ & HL).
  apply chuong_group1 in HL.
  destruct (chuong_node_shape chuong) as (title & body & Hsplit & ->).
  rewrite subnodes_division. constructor.
  - split.
    + pose proof (split_title_tidy (group chuong 3)) as [Ht _]. by rewrite Hsplit in Ht.
    + left. split; [done|]. split.
      * unfold group. by rewrite (chapter_id_trimmed _ HL).
      * destruct (findall muc_regex body) as [|m0 ms].
        -- right. apply dieu_nodes_are_articles.
        -- left. apply Forall_map, Forall_true. intros mu.
           by destruct (muc_node_section_of_articles mu).
  - destruct (findall muc_regex body) as [|m0 ms] eqn:E.
    + apply Forall_subnodes_map. intros d Hd. by apply (dieu_node_ok body).
    + apply Forall_subnodes_map. intros mu Hmu. apply (muc_node_ok body).
      by rewrite E.
Qed.

Lemma segment_ok (content : list N) :
  Forall node_ok (flat_map subnodes (segment content)).
Proof.
  unfold segment.
  destruct (findall chuong_regex content) as [|c0 cs] eqn:Ec.
  - destruct (findall muc_regex content) as [|m0 ms] eqn:Em.
    + apply Forall_subnodes_map. intros d Hd. by apply (dieu_node_ok content).
    + apply Forall_subnodes_map. intros mu Hmu. apply (muc_node_ok content).
      by rewrite Em.
  - apply Forall_subnodes_map. intros ch Hch. apply (chuong_node_ok content).
    by rewrite Ec.
Qed.

Lemma segment_node_ok (content : list N) (n : node) :
  n ∈ flat_map subnodes (segment content) → node_ok n.
Proof.
  intros Hin. pose proof (segment_ok content) as H.
  rewrite Forall_forall in H. by apply H.
Qed.

(** X2: every Chapter node of the result has as id the chapter keyword,
    whitespace and one or more roman-numeral letters; its title is tidy;
    and its children are either all Section nodes or all Article nodes,
    never a mix. *)
Theorem chapter_nodes_shape (content : list N) (n : node) :
  n ∈ flat_map subnodes (segment content) → node_type n = CHAPTER →
  chapter_id (node_id_text n) ∧ tidy (node_title n)
  ∧ (Forall (λ c, node_type c = SECTION) (node_children n)
     ∨ Forall (λ c, node_type c = ARTICLE) (node_children n)).
Proof.
  intros Hin Hty. apply segment_node_ok in Hin.
  destruct n as [t i title ch|t c]; simpl in *.
  - destruct Hin as [Htidy [(_ & Hid & Hch)|(-> & _)]]; [done|discriminate].
  - destruct Hin as [-> _]. discriminate.
Qed.

Lemma chapter_nodes_shape_witness :
  ∃ n, n ∈ flat_map subnodes (segment scenario_D) ∧ node_type n = CHAPTER
       ∧ chapter_id (node_id_text n).
Proof.
  destruct (flat_map subnodes (segment scenario_D) !! 0%nat) as [n|] eqn:E;
    [|vm_compute in E; discriminate E].
  assert (Hin : n ∈ flat_map subnodes (segment scenario_D))
    by exact (list_elem_of_lookup_2 _ _ _ E).
  assert (Hty : node_type n = CHAPTER)
    by (vm_compute in E; injection E as <-; reflexivity).
  exists n. split; [exact Hin|]. split; [exact Hty|].
  exact (proj1 (chapter_nodes_shape scenario_D n Hin Hty)).
Defined.

(** X3: every Section node of the result, at the top or under a chapter,
    has as id the section keyword, whitespace and one or more digits; its
    title is tidy; and its children are Article nodes only. *)
Theorem section_nodes_shape (content : list N) (n : node) :
  n ∈ flat_map subnodes (segment content) → node_type n = SECTION →
  section_id (node_id_text n) ∧ tidy (node_title n)
  ∧ Forall (λ c, node_type c = ARTICLE) (node_children n).
Proof.
  intros Hin Hty. apply segment_node_ok in Hin.
  destruct n as [t i title ch|t c]; simpl in *.
  - destruct Hin as [Htidy [(-> & _)|(_ & Hid & Hch)]]; [discriminate|done].
  - destruct Hin as [-> _]. discriminate.
Qed.

Lemma section_nodes_shape_witness :
  ∃ n, n ∈ flat_map subnodes (segment scenario_D) ∧ node_type n = SECTION
       ∧ section_id (node_id_text n).
Proof.
  destruct (flat_map subnodes (segment scenario_D) !! 1%nat) as [n|] eqn:E;
    [|vm_compute in E; discriminate E].
  assert (Hin : n ∈ flat_map subnodes (segment scenario_D))
    by exact (list_elem_of_lookup_2 _ _ _ E).
  assert (Hty : node_type n = SECTION)
    by (vm_compute in E; injection E as <-; reflexivity).
  exists n. split; [exact Hin|]. split; [exact Hty|].
  exact (proj1 (section_nodes_shape scenario_D n Hin Hty)).
Defined.

(** X4: every Article node of the result is a leaf whose content starts
    with the article keyword and has no leading or trailing whitespace. *)
Theorem article_nodes_shape (content : list N) (n : node) :
  n ∈ flat_map subnodes (segment content) → node_type n = ARTICLE →
  node_children n = [] ∧ article_text (node_content n).
Proof.
  intros Hin Hty. apply segment_node_ok in Hin.
  destruct n as [t i title ch|t c]; simpl in *.
  - destruct Hin as [_ [(-> & _)|(-> & _)]]; discriminate.
  - by destruct Hin as [_ Hc].
Qed.

Lemma article_nodes_shape_witness :
  ∃ n, n ∈ flat_map subnodes (segment scenario_D) ∧ node_type n = ARTICLE
       ∧ article_text (node_content n).
Proof.
  destruct (flat_map subnodes (segment scenario_D) !! 2%nat) as [n|] eqn:E;
    [|vm_compute in E; discriminate E].
  assert (Hin : n ∈ flat_map subnodes (segment scenario_D))
    by exact (list_elem_of_lookup_2 _ _ _ E).
  assert (Hty : node_type n = ARTICLE)
    by (vm_compute in E; injection E as <-; reflexivity).
  exists n. split; [exact Hin|]. split; [exact Hty|].
  exact (proj2 (article_nodes_shape scenario_D n Hin Hty)).
Defined.

(** ** What the article pattern detects, and when the result is empty *)

Lemma dieu_regex_lang_intro (ws ds bs : list N) (c : N) (tail : list N) :
  all_in isspace ws → all_in digit ds → all_in backslash bs →
  Lang false (pattern dieu_regex)
    (py "Điều" ++ ws ++ ds ++ bs ++ 0x2E :: c :: tail) [].
Proof.
  intros Hws Hds Hbs. unfold dieu_regex, Plus, PlusLazy. cbn [pattern Lang].
  exists (py "Điều" ++ ws ++ ds ++ bs ++ 0x2E :: c :: tail), [].
  split; [by rewrite app_nil_r|].
  split; [|split; [done|]; exists [], []; split; [done|]; by right].
  exists [], (py "Điều" ++ ws ++ ds ++ bs ++ 0x2E :: c :: tail). split; [done|].
  split; [exists [], []; split; [done|]; split; constructor|].
  exists (py "Điều" ++ ws ++ ds ++ bs ++ [0x2E]), (c :: tail).
  split; [by rewrite <- !app_assoc|].
  split; [|exists [c], tail; split; [done|]; split; [by exists c|by apply Forall_true]].
  exists (py "Điều" ++ ws ++ ds ++ bs), [0x2E]. split; [by rewrite <- !app_assoc|].
  split; [|exists [0x2E], []; split; [done|]; split; [by exists 0x2E|constructor]].
  exists (py "Điều" ++ ws ++ ds), bs. split; [by rewrite <- !app_assoc|].
  split; [|done].
  exists (py "Điều" ++ ws), ds. split; [by rewrite <- !app_assoc|].
  split; [|done].
  exists (py "Điều"), ws. split; [done|]. split; [|done].
  by apply lit_matches_exact.
Qed.

Lemma dieu_detected_iff (text : list N) :
  findall dieu_regex text ≠ [] ↔ article_marker_in text.
Proof.
  split.
  - intros H. destruct (findall dieu_regex text) as [|m0 ms] eqn:E; [done|].
    destruct (finditer_from_first _ _ _ _ _ E) as (pre & s1 & -> & _ & [[w caps] Hm] & _).
    destruct (match_here_sound _ _ _ _ Hm) as (s' & -> & HL).
    apply dieu_group1 in HL
      as (ws & ds & bs & dots & body & Hg & Hws & Hds & Hbs & Hdots & Hne & Hb
          & lead & -> & _).
    rewrite Hg.
    destruct dots as [|d dr]; [done|]. destruct body as [|b br]; [done|].
    apply Forall_cons in Hdots as [Hd Hdr].
    unfold dot, is_chr in Hd. apply N.eqb_eq in Hd as ->.
    destruct dr as [|d2 dr].
    + exists (pre ++ lead), ws, ds, bs, b, (br ++ s').
      split; [|done]. rewrite <- !app_assoc. cbn [app]. by rewrite <- ?app_assoc.
    + exists (pre ++ lead), ws, ds, bs, d2, (dr ++ b :: br ++ s').
      split; [|done]. rewrite <- !app_assoc. cbn [app].
      rewrite <- ?app_assoc. cbn [app]. by rewrite <- ?app_assoc.
  - intros (pre & ws & ds & bs & c & tail & -> & Hws & Hds & Hbs).
    apply finditer_from_found.
    + rewrite <- (app_nil_r (_ ++ _ ++ _ ++ _ ++ _ :: _)).
      apply match_here_complete. by apply dieu_regex_lang_intro.
    + intros Hnil. apply (f_equal length) in Hnil.
      rewrite !length_app in Hnil. simpl in Hnil. lia.
Qed.

(** X7: [dieu_regex] finds an article exactly when the article keyword,
    optional whitespace, optional digits, optional backslashes and a
    period occur in the text with at least one more character after that
    period; an article marker that ends the text is not found. *)
Theorem article_found_iff_marker (text : list N) :
  findall dieu_regex text ≠ [] ↔ article_marker_in text.
Proof. apply dieu_detected_iff. Qed.

(** X5: [chuong_regex] finds a chapter exactly when the text holds a
    chapter marker: the keyword, optional whitespace and a roman-numeral
    letter. *)
Theorem chapter_found_iff_marker (text : list N) :
  findall chuong_regex text ≠ [] ↔ chapter_marker_in text.
Proof. apply chapter_detected_iff. Qed.

(** X6: [muc_regex] finds a section exactly when the text holds the
    section keyword, optional whitespace and a digit with at least one
    more character after that digit; a section marker that ends the text
    is not found. *)
Theorem section_found_iff_marker (text : list N) :
  findall muc_regex text ≠ [] ↔ section_marker_in text.
Proof. apply section_detected_iff. Qed.

(** X8: the result is the empty list exactly when the text holds neither a
    chapter marker nor a section marker nor an article marker (the latter
    two with at least one character after them). *)
Theorem segment_empty_iff (text : list N) :
  segment text = []
  ↔ ¬ chapter_marker_in text ∧ ¬ section_marker_in text ∧ ¬ article_marker_in text.
Proof.
  unfold chapter_marker_in, section_marker_in.
  rewrite <- chapter_detected_iff, <- section_detected_iff, <- dieu_detected_iff.
  unfold segment.
  destruct (findall chuong_regex text) as [|c0 cs];
    destruct (findall muc_regex text) as [|m0 ms];
    destruct (findall dieu_regex text) as [|d0 ds]; simpl; split; try done;
    try (intros (H1 & H2 & H3); exfalso; first [by apply H1|by apply H2|by apply H3]).
  all: intros _; repeat split; intros H; by apply H.
Qed.

(** ** The title candidate *)

Lemma star_lazy_first {R} (cls : N → bool) (k : list N → option R) x :
  ∀ s, star_lazy cls s k = Some x →
       ∃ w s', s = w ++ s' ∧ all_in cls w ∧ k s' = Some x
               ∧ ∀ w1 w2, w = w1 ++ w2 → w2 ≠ [] → k (w2 ++ s') = None.
Proof.
  induction s as [|c s IH]; simpl; intros H.
  - destruct (k []) eqn:E; [|done]. injection H as ->.
    exists [], []. split; [done|]. split; [constructor|]. split; [done|].
    intros w1 w2 Hw Hne. by destruct w1, w2.
  - destruct (k (c :: s)) eqn:E.
    + injection H as ->.
      exists [], (c :: s). split; [done|]. split; [constructor|]. split; [done|].
      intros w1 w2 Hw Hne. by destruct w1, w2.
    + destruct (cls c) eqn:Ec; [|done].
      destruct (IH H) as (w & s' & -> & Hw & Hk & Hmin).
      exists (c :: w), s'. split; [done|]. split; [by constructor|]. split; [done|].
      intros w1 w2 Heq Hne. destruct w1 as [|c1 w1].
      * simpl in Heq. by subst w2.
      * injection Heq as <- ->. by apply (Hmin w1 w2).
Qed.

Lemma search_from_here (p : Pattern) (pos : nat) (s w : list N)
    (caps : gmap nat (list N)) :
  match_here p s = Some (w, caps) → search_from p pos s = Some (mkMatch pos w caps).
Proof. intros H. destruct s; simpl; by rewrite H. Qed.

Lemma marker_lang_intro (ic : bool) (kw lead k ws : list N) (d : N) (rest : list N) :
  all_in isspace lead → lit_matches ic kw k → all_in isspace ws → digit d = true →
  Lang ic (Plus newline ⋅ Star isspace ⋅ Lit kw ⋅ Star isspace ⋅ Plus digit)
    (0x0A :: lead ++ k ++ ws ++ [d]) rest.
Proof.
  intros Hlead Hk Hws Hd. unfold Plus. cbn [Lang].
  exists (0x0A :: lead ++ k ++ ws), [d].
  split; [by (simpl; rewrite <- ?app_assoc)|].
  split; [|exists [d], []; split; [done|]; split; [by exists d|constructor]].
  exists (0x0A :: lead ++ k), ws.
  split; [by (simpl; rewrite <- ?app_assoc)|]. split; [|done].
  exists (0x0A :: lead), k. split; [done|]. split; [|done].
  exists [0x0A], lead. split; [done|]. split; [|done].
  exists [0x0A], []. split; [done|]. split; [by exists 0x0A|constructor].
Qed.

Lemma title_boundary_lang (s : list N) :
  boundary_led s ↔ ∃ x rest1, s = x ++ rest1 ∧ Lang true title_boundary x rest1.
Proof.
  split.
  - intros (lead & k & ws & d & tail & -> & Hlead & Hk & Hws & Hd).
    exists (0x0A :: lead ++ k ++ ws ++ [d]), tail.
    split; [simpl; by rewrite <- !app_assoc|].
    unfold title_boundary. cbn [Lang].
    destruct Hk as [Hk|Hk]; [left|right]; by apply marker_lang_intro.
  - intros (x & rest1 & -> & H). unfold title_boundary in H. cbn [Lang] in H.
    destruct H as [H|H]; unfold Plus in H; cbn [Lang] in H;
      destruct H as (x1 & x2 & -> & (x3 & ws & -> & (x4 & k & -> & (x5 & ws0 & ->
                & (n1 & ns & -> & (n & -> & Hn) & Hns) & Hws0) & Hk) & Hws)
              & (d' & ds & -> & (d & -> & Hd) & Hds));
      unfold newline, is_chr in Hn; apply N.eqb_eq in Hn as ->;
      exists (ns ++ ws0), k, ws, d, (ds ++ rest1);
      (split; [simpl; by rewrite <- !app_assoc|]);
      (split; [apply Forall_app; split; [by apply newline_all_space|done]|]);
      (split; [by auto|done]).
Qed.

(** The continuation that [title_regex] runs after each extension of its
    lazy first group. *)
Lemma title_regex_shape :
  title_regex = re_compile (Group 1 (PlusLazy any) ⋅ LookAhead title_boundary) true.
Proof. reflexivity. Qed.

(** The match of [title_regex] anchored at the head of a text: its lazy
    group stops at the first title boundary. *)
Lemma match_here_title_first (s w : list N) (caps : gmap nat (list N)) :
  match_here title_regex s = Some (w, caps) →
  ∃ rest, s = w ++ rest ∧ w ≠ [] ∧ boundary_led rest
          ∧ ∀ w1 w2, w = w1 ++ w2 → w1 ≠ [] → w2 ≠ [] → ¬ boundary_led (w2 ++ rest).
Proof.
  rewrite title_regex_shape. unfold match_here, PlusLazy.
  cbn [pattern IGNORECASE re_match].
  destruct s as [|c s]; [done|]. cbn [any].
  destruct (star_lazy any s _) as [[s' c']|] eqn:E; [|done].
  intros [= <- <-].
  apply star_lazy_first in E as (w & rest & -> & _ & Hk & Hmin).
  destruct (re_match true title_boundary rest _ _) as [[s1 c1]|] eqn:E1; [|done].
  injection Hk as <- <-.
  assert (Ht : take (S (length (w ++ rest)) - length rest) (c :: w ++ rest) = c :: w).
  { rewrite length_app.
    replace (S (length w + length rest) - length rest)%nat with (S (length w)) by lia.
    simpl. f_equal. apply take_app_length. }
  rewrite Ht. exists rest. split; [done|]. split; [done|]. split.
  - apply re_match_sound in E1 as (x & s2 & c2 & -> & HL & _).
    apply title_boundary_lang. exists x, s2. split; [done|]. by apply LangC_Lang in HL.
  - intros w1 w2 Hw Hw1 Hw2 Hled.
    destruct w1 as [|c1' w1]; [done|]. injection Hw as <- ->.
    specialize (Hmin w1 w2 eq_refl Hw2). cbv beta in Hmin.
    apply title_boundary_lang in Hled as (x & rest1 & Heq & HL).
    destruct (re_match true title_boundary (w2 ++ rest) _ _) as [[s3 c3]|] eqn:E3;
      [done|].
    rewrite Heq in E3.
    match type of E3 with
    | re_match _ _ _ ?cp ?k = None =>
      destruct (re_match_complete true title_boundary x rest1 cp k HL) as [y Hy];
        [by eauto|]
    end.
    congruence.
Qed.

Lemma title_lang_intro (w rest : list N) :
  w ≠ [] → boundary_led rest → Lang true (pattern title_regex) w rest.
Proof.
  intros Hne Hled. rewrite title_regex_shape. unfold PlusLazy. cbn [pattern Lang].
  exists w, []. split; [by rewrite app_nil_r|]. split.
  - destruct w as [|c w]; [done|]. exists [c], w. split; [done|].
    split; [by exists c|by apply Forall_true].
  - split; [done|]. by apply title_boundary_lang.
Qed.

Lemma search_title_anatomy (body : list N) (m : Match) :
  search title_regex body = Some m →
  m_start m = 0%nat
  ∧ ∃ rest, body = group0 m ++ rest ∧ group0 m ≠ [] ∧ boundary_led rest
            ∧ ∀ w1 w2, group0 m = w1 ++ w2 → w1 ≠ [] → w2 ≠ [] →
                       ¬ boundary_led (w2 ++ rest).
Proof.
  intros Hs. unfold search in Hs.
  destruct (search_from_sound _ _ _ _ Hs) as (pre & s1 & -> & _ & Hm).
  apply match_here_title_first in Hm as (rest & -> & Hne & Hled & _).
  assert (Hhere : is_Some (match_here title_regex ((pre ++ group0 m) ++ rest))).
  { apply match_here_complete. apply title_lang_intro; [|done].
    intros Hnil. apply app_eq_nil in Hnil as [_ Hnil]. done. }
  rewrite <- app_assoc in Hhere. destruct Hhere as [[w0 caps0] Hhere].
  rewrite (search_from_here _ _ _ _ _ Hhere) in Hs. injection Hs as <-.
  split; [done|]. by apply match_here_title_first in Hhere.
Qed.

(** X9: when the title pattern finds a candidate in a body, the candidate
    is a non-empty prefix of the body (the match starts at position 0),
    what follows it starts with a title boundary (a newline, optional
    whitespace, the article or section keyword in any letter case,
    optional whitespace, a digit), and no shorter non-empty prefix is
    followed by a title boundary: the candidate ends at the first
    boundary after the first character. *)
Theorem title_candidate_shortest_prefix (body : list N) (title_match : Match) :
  search title_regex body = Some title_match →
  m_start title_match = 0%nat
  ∧ ∃ rest, body = group0 title_match ++ rest
            ∧ group0 title_match ≠ [] ∧ boundary_led rest
            ∧ ∀ w1 w2, group0 title_match = w1 ++ w2 → w1 ≠ [] → w2 ≠ [] →
                       ¬ boundary_led (w2 ++ rest).
Proof. apply search_title_anatomy. Qed.

Lemma title_candidate_shortest_prefix_witness :
  ∃ title_match,
    search title_regex titled_body = Some title_match
    ∧ m_start title_match = 0%nat.
Proof.
  destruct (search title_regex titled_body) as [m|] eqn:E;
    [|vm_compute in E; discriminate E].
  exists m. split; [reflexivity|].
  exact (proj1 (title_candidate_shortest_prefix titled_body m E)).
Defined.

(** X10: the title pattern finds a candidate in a body exactly when, after
    at least one character, the body holds a title boundary. *)
Theorem title_found_iff_boundary (body : list N) :
  is_Some (search title_regex body)
  ↔ ∃ w rest, body = w ++ rest ∧ w ≠ [] ∧ boundary_led rest.
Proof.
  split.
  - intros [m Hm]. apply search_title_anatomy in Hm as (_ & rest & Hb & Hne & Hled & _).
    by exists (group0 m), rest.
  - intros (w & rest & -> & Hne & Hled).
    destruct (match_here_complete title_regex w rest) as [[w0 c0] H0];
      [by apply title_lang_intro|].
    unfold search. rewrite (search_from_here _ _ _ _ _ H0). by eexists.
Qed.

(** ** Article matches *)

Lemma finditer_from_none (p : Pattern) (s : list N) : ∀ pos,
  (∀ pre s1, s = pre ++ s1 → match_here p s1 = None) →
  finditer_from p pos 0 s = [].
Proof.
  induction s as [|c s IH]; intros pos H; [done|].
  rewrite finditer_from_cons, (H [] (c :: s) eq_refl).
  apply IH. intros pre s1 ->. by apply (H (c :: pre) s1).
Qed.

Lemma dieu_boundary_lang (x rest : list N) :
  Lang false (Plus newline ⋅ Star isspace ⋅ Lit (py "Điều") ⋅ Star isspace ⋅ Plus digit
              ⋅ Star backslash ⋅ In dot) x rest →
  bare_article_marker x.
Proof.
  unfold Plus. cbn [Lang].
  intros (x1 & x2 & -> & (x3 & bs & -> & (x4 & ds' & -> & (x5 & ws & ->
            & (x6 & k & -> & (x7 & ws0 & -> & (n1 & ns & -> & (n & -> & Hn) & Hns)
                & Hws0) & Hk) & Hws) & (d1 & ds & -> & (d & -> & Hd) & Hds)) & Hbs)
          & (e & -> & He)).
  unfold newline, is_chr in Hn. apply N.eqb_eq in Hn as ->.
  unfold dot, is_chr in He. apply N.eqb_eq in He as ->.
  apply lit_matches_exact in Hk as ->.
  exists (ns ++ ws0), ws, ([d] ++ ds), bs.
  split; [simpl; by rewrite <- !app_assoc|].
  split; [apply Forall_app; split; [by apply newline_all_space|done]|].
  split; [done|]. split; [by constructor|done].
Qed.

Lemma dieu_regex_lang_led (lead ws ds bs : list N) (c : N) (tail : list N) :
  all_in isspace lead → all_in isspace ws → all_in digit ds → all_in backslash bs →
  Lang false (pattern dieu_regex)
    (lead ++ py "Điều" ++ ws ++ ds ++ bs ++ 0x2E :: c :: tail) [].
Proof.
  intros Hlead Hws Hds Hbs.
  pose proof (dieu_regex_lang_intro ws ds bs c tail Hws Hds Hbs) as H.
  unfold dieu_regex in *. cbn [pattern Lang] in *.
  destruct H as (w1 & w2 & Hw & (w3 & g1 & Hw1 & (nls & ws0 & Hw3 & Hnls & Hws0) & Hg1)
                 & Hlk).
  exists (lead ++ w1), w2. split; [by rewrite <- app_assoc, <- Hw|].
  split; [|done].
  exists (lead ++ w3), g1. split; [by rewrite <- app_assoc, <- Hw1|].
  split; [|done].
  exists [], (lead ++ w3). split; [done|]. split; [constructor|].
  apply Forall_app. split; [done|]. rewrite Hw3.
  apply Forall_app. split; [by apply newline_all_space|done].
Qed.

Lemma no_dot_in (cls : N → bool) (l : list N) :
  cls 0x2E = false → all_in cls l → Forall (λ c, c ≠ 0x2E) l.
Proof.
  intros Hcls Hl. eapply Forall_impl; [exact Hl|].
  intros c Hc ->. simpl in Hc. congruence.
Qed.

Lemma last_dot_only (A : list N) : ∀ P c V,
  Forall (λ a, a ≠ 0x2E) A → A ++ [0x2E] = P ++ 0x2E :: c :: V → False.
Proof.
  induction A as [|a A IH]; intros P c V HA Heq.
  - destruct P as [|p P]; [done|]. by destruct P.
  - apply Forall_cons in HA as [Ha HA]. destruct P as [|p P].
    + injection Heq as -> _. done.
    + injection Heq as _ Heq. by apply (IH P c V).
Qed.

(** No article match starts anywhere in a bare article marker. *)
Lemma bare_marker_dead (s : list N) (pos : nat) :
  bare_article_marker s → finditer_from dieu_regex pos 0 s = [].
Proof.
  intros (lead & ws & ds & bs & -> & Hlead & Hws & Hds & Hne & Hbs).
  apply finditer_from_none. intros pre s1 Heq.
  destruct (match_here dieu_regex s1) as [[w caps]|] eqn:E; [exfalso|done].
  destruct (match_here_sound _ _ _ _ E) as (s' & -> & HL).
  apply dieu_group1 in HL
    as (ws' & ds' & bs' & dots & body & Hg & _ & _ & _ & Hdots & Hdne & Hbne
        & lead' & -> & _).
  rewrite Hg in Heq.
  destruct dots as [|d dr]; [done|]. destruct body as [|b br]; [done|].
  apply Forall_cons in Hdots as [Hd Hdr].
  unfold dot, is_chr in Hd. apply N.eqb_eq in Hd as ->.
  assert (Hshape : ∃ P c V, pre ++ (lead' ++ py "Điều" ++ ws' ++ ds' ++ bs'
                              ++ (0x2E :: dr) ++ b :: br) ++ s' = P ++ 0x2E :: c :: V).
  { destruct dr as [|d2 dr].
    - exists (pre ++ lead' ++ py "Điều" ++ ws' ++ ds' ++ bs'), b, (br ++ s').
      rewrite <- !app_assoc. cbn [app]. by rewrite <- ?app_assoc.
    - exists (pre ++ lead' ++ py "Điều" ++ ws' ++ ds' ++ bs'), d2, (dr ++ b :: br ++ s').
      rewrite <- !app_assoc. cbn [app]. rewrite <- ?app_assoc. cbn [app].
      by rewrite <- ?app_assoc. }
  destruct Hshape as (P & c & V & Hshape). rewrite Hshape in Heq.
  apply (last_dot_only (0x0A :: lead ++ py "Điều" ++ ws ++ ds ++ bs) P c V).
  - constructor; [done|].
    repeat (apply Forall_app; split);
      first [by apply (no_dot_in isspace)|by apply (no_dot_in digit)
            |by apply (no_dot_in backslash)|by rewrite py_dieu; repeat constructor].
  - rewrite <- Heq. cbn [app]. by rewrite <- !app_assoc.
Qed.

Lemma dieu_match_here (s w : list N) (caps : gmap nat (list N)) :
  match_here dieu_regex s = Some (w, caps) →
  ∃ c w' s', w = c :: w' ∧ s = c :: w' ++ s'
    ∧ article_layout (mkMatch 0 w caps)
    ∧ (s' = [] ∨ is_Some (match_here dieu_regex s') ∨ bare_article_marker s').
Proof.
  intros H. destruct (match_here_sound _ _ _ _ H) as (s' & -> & HL).
  pose proof HL as HL'.
  apply dieu_group1 in HL'
    as (ws & ds & bs & dots & body & Hg & _ & _ & _ & _ & _ & Hbne & lead & Hw & Hlead).
  assert (Hg1 : default [] (caps !! 1%nat) ≠ []).
  { rewrite Hg, py_dieu. done. }
  assert (Hlay : article_layout (mkMatch 0 w caps)) by (by exists lead).
  destruct w as [|c w'].
  { exfalso. symmetry in Hw. apply app_eq_nil in Hw as [_ Hw]. done. }
  exists c, w', s'. split; [done|]. split; [done|]. split; [done|].
  unfold dieu_regex in HL. cbn [pattern] in HL.
  apply dieu_pattern_langC
    in HL as (lead2 & g2 & c2 & x & rest1 & _ & _ & _ & -> & HLK).
  apply LangC_Lang in HLK. cbn [Lang] in HLK. destruct HLK as [HX|[-> ->]].
  - apply dieu_boundary_lang in HX.
    destruct rest1 as [|r rest1].
    + right. right. by rewrite app_nil_r.
    + right. left. destruct HX as (lead' & ws' & ds' & bs' & -> & Hl' & Hws' & Hds' & _ & Hbs').
      rewrite <- (app_nil_r (_ ++ _)). apply match_here_complete.
      replace ((0x0A :: lead' ++ py "Điều" ++ ws' ++ ds' ++ bs' ++ [0x2E]) ++ r :: rest1)
        with ((0x0A :: lead') ++ py "Điều" ++ ws' ++ ds' ++ bs' ++ 0x2E :: r :: rest1)
        by (cbn [app]; rewrite <- !app_assoc; by cbn [app]).
      apply dieu_regex_lang_led; try done. by constructor.
  - by left.
Qed.

(** From a position where [dieu_regex] matches, the successive matches
    tile the rest of the text up to a bare marker at its end. *)
Lemma dieu_chain (n : nat) : ∀ (s : list N) (pos : nat),
  (length s ≤ n)%nat → is_Some (match_here dieu_regex s) →
  ∃ tail,
    concat (map group0 (finditer_from dieu_regex pos 0 s)) ++ tail = s
    ∧ (tail = [] ∨ bare_article_marker tail)
    ∧ Forall article_layout (finditer_from dieu_regex pos 0 s).
Proof.
  induction n as [|n IH]; intros s pos Hlen [[w caps] Hm];
    destruct (dieu_match_here _ _ _ Hm) as (c & w' & s' & -> & -> & Hlay & Hnext);
    simpl in Hlen; [lia|].
  rewrite finditer_from_cons, Hm, finditer_from_skip.
  cbn [length]. rewrite Nat.sub_succ, Nat.sub_0_r, drop_app_length.
  assert (Hlay' : article_layout (mkMatch pos (c :: w') caps)) by exact Hlay.
  destruct Hnext as [->|[Hs'|Hbare]].
  - exists []. simpl. rewrite !app_nil_r. split; [done|]. split; [by left|by constructor].
  - rewrite length_app in Hlen.
    destruct (IH s' (S pos + length w')%nat) as (tail & Hcat & Htail & Hall); [lia|done|].
    exists tail. cbn [map concat group0]. rewrite <- app_assoc, Hcat.
    split; [done|]. split; [done|by constructor].
  - exists s'. rewrite (bare_marker_dead s' _ Hbare). simpl. rewrite app_nil_r.
    split; [done|]. split; [by right|by constructor].
Qed.

(** X11: when [dieu_regex] finds articles in a text, the whole match
    spans, in order, make up the text from the start of the first match
    on, with no gap and no overlap, except that a bare article marker
    ending the text (nothing after its period) is left out; each span is
    whitespace followed by the article text (group 1). *)
Theorem article_spans_cover (text : list N) (m0 : Match) (ms : list Match) :
  findall dieu_regex text = m0 :: ms →
  ∃ tail,
    concat (map group0 (m0 :: ms)) ++ tail = drop (m_start m0) text
    ∧ (tail = [] ∨ bare_article_marker tail)
    ∧ Forall article_layout (m0 :: ms).
Proof.
  unfold findall. intros H.
  destruct (finditer_from_first _ _ _ _ _ H) as (pre & s1 & -> & Hpos & Hm & Hit).
  destruct (dieu_chain (length s1) s1 (0 + length pre) (le_n _) Hm)
    as (tail & Hcat & Htail & Hall).
  rewrite Hit in Hcat, Hall. exists tail. split; [|done].
  rewrite Hcat, Hpos. simpl. by rewrite drop_app_length.
Qed.

Lemma article_spans_cover_witness :
  ∃ m0 ms tail,
    findall dieu_regex two_articles = m0 :: ms
    ∧ concat (map group0 (m0 :: ms)) ++ tail = drop (m_start m0) two_articles.
Proof.
  destruct (findall dieu_regex two_articles) as [|m0 ms] eqn:E;
    [vm_compute in E; discriminate E|].
  destruct (article_spans_cover two_articles m0 ms E) as (tail & Hcat & _).
  exists m0, ms, tail. split; [reflexivity|exact Hcat].
Defined.

(** * Retrieval and metadata *)

(** ** Splitting *)

Lemma split_scan_skip (sep : list N) (s : list N) : ∀ n,
  split_scan sep n s = split_scan sep 0 (drop n s).
Proof. induction s as [|c s IH]; intros [|n]; simpl; done. Qed.

Lemma split_scan_cons (sep : list N) (c : N) (s : list N) :
  split_scan sep 0 (c :: s)
  = if startswith (c :: s) sep
    then [] :: split_scan sep (length sep - 1) s
    else match split_scan sep 0 s with
         | piece :: pieces => (c :: piece) :: pieces
         | [] => [[c]]
         end.
Proof. reflexivity. Qed.

Lemma split_scan_nonempty (sep : list N) (s : list N) : ∀ n, split_scan sep n s ≠ [].
Proof.
  induction s as [|c s IH]; intros [|n]; simpl; try done.
  destruct (startswith (c :: s) sep); [done|].
  by destruct (split_scan sep 0 s).
Qed.

Lemma startswith_nil_false (sep : list N) : sep ≠ [] → startswith [] sep = false.
Proof. by destruct sep. Qed.

Lemma split_single (sep : list N) : sep ≠ [] → ∀ s p,
  split_scan sep 0 s = [p] → p = s ∧ occurs s sep = false.
Proof.
  intros Hsep. induction s as [|c s IH]; intros p.
  - simpl. intros [= <-]. split; [done|]. rewrite orb_false_r.
    by apply startswith_nil_false.
  - rewrite split_scan_cons. cbn [occurs].
    destruct (startswith (c :: s) sep) eqn:E.
    + intros [= <- H]. by apply split_scan_nonempty in H.
    + destruct (split_scan sep 0 s) as [|piece pieces] eqn:Es.
      * by apply split_scan_nonempty in Es.
      * intros [= <- ->]. destruct (IH piece eq_refl) as [-> Ho]. by rewrite Ho.
Qed.

Lemma split_absent (sep s : list N) :
  occurs s sep = false → split_scan sep 0 s = [s].
Proof.
  induction s as [|c s IH]; [done|].
  cbn [occurs]. intros [Hs Ho]%orb_false_iff.
  rewrite split_scan_cons, Hs, (IH Ho). done.
Qed.

(** The last piece of a split holds no further separator. *)
Lemma last_piece_free (sep : list N) : sep ≠ [] → ∀ s n,
  occurs (last_piece (split_scan sep n s)) sep = false.
Proof.
  intros Hsep. induction s as [|c s IH]; intros n.
  - simpl. rewrite orb_false_r. by apply startswith_nil_false.
  - destruct n as [|n]; [|apply IH].
    rewrite split_scan_cons. destruct (startswith (c :: s) sep) eqn:E.
    + unfold last_piece.
      destruct (split_scan sep (length sep - 1) s) as [|p ps] eqn:Es.
      { by apply split_scan_nonempty in Es. }
      rewrite last_cons_cons. rewrite <- Es. apply IH.
    + destruct (split_scan sep 0 s) as [|piece pieces] eqn:Es.
      { by apply split_scan_nonempty in Es. }
      destruct pieces as [|p2 ps].
      * apply (split_single sep Hsep) in Es as [-> Ho].
        unfold last_piece. simpl. cbn [occurs] in *. by rewrite E, Ho.
      * unfold last_piece. rewrite last_cons_cons.
        specialize (IH 0%nat). rewrite Es in IH. unfold last_piece in IH.
        by rewrite last_cons_cons in IH.
Qed.

Lemma startswith_app_long (a rest sep : list N) :
  (length sep ≤ length a)%nat → startswith (a ++ rest) sep = startswith a sep.
Proof.
  revert a. induction sep as [|p sep IH]; intros a Hlen; [done|].
  destruct a as [|c a]; simpl in *; [lia|].
  rewrite IH by lia. done.
Qed.

Lemma split_after_prefix (pre sep rest : list N) :
  sep ≠ [] → free_before pre sep = true →
  split (pre ++ sep ++ rest) sep = pre :: split rest sep.
Proof.
  intros Hsep. unfold split. induction pre as [|c pre IH]; intros Hfree.
  - destruct sep as [|a sep]; [done|]. cbn [app].
    rewrite split_scan_cons.
    change (a :: sep ++ rest) with ((a :: sep) ++ rest).
    rewrite startswith_app, split_scan_skip. cbn [length].
    rewrite Nat.sub_succ, Nat.sub_0_r, drop_app_length. done.
  - cbn [free_before] in Hfree. apply andb_true_iff in Hfree as [Hc Hfree].
    apply negb_true_iff in Hc. cbn [app] in *.
    assert (Hs : startswith (c :: pre ++ sep ++ rest) sep = false).
    { replace (c :: pre ++ sep ++ rest) with ((c :: pre ++ sep) ++ rest)
        by (cbn [app]; by rewrite <- app_assoc).
      rewrite startswith_app_long; [done|]. cbn [length]. rewrite length_app. lia. }
    rewrite split_scan_cons, Hs, (IH Hfree). done.
Qed.

Lemma occurs_char (a : N) (s : list N) : a ∉ s → occurs s [a] = false.
Proof.
  induction s as [|c s IH]; [done|].
  intros [Hne Hs]%not_elem_of_cons. cbn [occurs startswith].
  rewrite (IH Hs). destruct (N.eqb_spec a c); [done|]. done.
Qed.

Lemma first_piece_no_char (a : N) (s : list N) :
  a ∉ first_piece (split s [a]).
Proof.
  unfold split, first_piece. induction s as [|c s IH]; simpl.
  - apply not_elem_of_nil.
  - destruct (N.eqb_spec a c) as [->|Hne]; simpl; [apply not_elem_of_nil|].
    destruct (split_scan [a] 0 s) as [|piece pieces] eqn:Es; simpl in *.
    + apply not_elem_of_cons. split; [done|apply not_elem_of_nil].
    + by apply not_elem_of_cons.
Qed.

(** ** The document id *)

Lemma url_prefix_split :
  py "https://vbpl.vn/nganhangnhanuoc/Pages/vbpq-toanvan.aspx?ItemID="
  = py "https://vbpl.vn/nganhangnhanuoc/Pages/vbpq-toanvan.aspx?" ++ py "ItemID="
  ∧ py "https://vbpl.vn/nganhangnhanuoc/Pages/vbpq-luocdo.aspx?ItemID="
    = py "https://vbpl.vn/nganhangnhanuoc/Pages/vbpq-luocdo.aspx?" ++ py "ItemID=".
Proof. split; vm_compute; reflexivity. Qed.

Lemma document_id_after (pre id : list N) :
  free_before pre (py "ItemID=") = true →
  occurs id (py "ItemID=") = false → 0x26 ∉ id → strip id = id →
  document_id_of (pre ++ py "ItemID=" ++ id) = id.
Proof.
  intros Hfree Hocc Hamp Hstrip. unfold document_id_of.
  rewrite split_after_prefix by done.
  unfold split at 2. rewrite (split_absent _ _ Hocc).
  change (last_piece [pre; id]) with id.
  change (py "&") with [0x26]. unfold split.
  rewrite (split_absent _ _ (occurs_char _ _ Hamp)). exact Hstrip.
Qed.

(** X12: reading the document id back from a page address built by
    [toanvan_url] or [luocdo_url] returns the id, for every id that holds
    neither [ItemID=] nor [&] and has nothing to trim. *)
Theorem document_id_round_trip (id : list N) :
  occurs id (py "ItemID=") = false → 0x26 ∉ id → strip id = id →
  document_id_of (toanvan_url id) = id ∧ document_id_of (luocdo_url id) = id.
Proof.
  intros Hocc Hamp Hstrip. unfold toanvan_url, luocdo_url.
  destruct url_prefix_split as [-> ->]. rewrite <- !app_assoc.
  split; apply document_id_after; try done; vm_compute; reflexivity.
Qed.

Lemma document_id_round_trip_witness :
  occurs (py "32801") (py "ItemID=") = false
  ∧ document_id_of (toanvan_url (py "32801")) = py "32801".
Proof.
  assert (H1 : occurs (py "32801") (py "ItemID=") = false) by (vm_compute; reflexivity).
  assert (H2 : 0x26 ∉ py "32801").
  { intros H. vm_compute in H.
    repeat (apply elem_of_cons in H as [H|H]; [discriminate H|]).
    by apply elem_of_nil in H. }
  assert (H3 : strip (py "32801") = py "32801") by (vm_compute; reflexivity).
  split; [exact H1|].
  exact (proj1 (document_id_round_trip (py "32801") H1 H2 H3)).
Defined.

Lemma occurs_app_r (a s l : list N) : occurs s l = true → occurs (a ++ s) l = true.
Proof.
  intros H. induction a as [|c a IH]; [done|].
  cbn [app occurs]. by rewrite IH, orb_true_r.
Qed.

Lemma startswith_app_l (s b l : list N) :
  startswith s l = true → startswith (s ++ b) l = true.
Proof.
  revert s. induction l as [|p l IH]; intros s; [done|].
  destruct s as [|c s]; simpl; [done|].
  intros [-> H]%andb_true_iff. by rewrite (IH _ H).
Qed.

Lemma occurs_app_l (s b l : list N) : occurs s l = true → occurs (s ++ b) l = true.
Proof.
  induction s as [|c s IH].
  - simpl. rewrite orb_false_r. intros H.
    apply (startswith_app_l [] b) in H. simpl in H.
    destruct b; simpl; by rewrite H.
  - cbn [app occurs]. intros [H|H]%orb_true_iff.
    + apply (startswith_app_l _ b) in H. cbn [app] in H. by rewrite H.
    + by rewrite (IH H), orb_true_r.
Qed.

Lemma strip_infix (s : list N) : ∃ w1 w2, s = w1 ++ strip s ++ w2.
Proof.
  destruct (lstrip_split s) as (w1 & Hs & _).
  destruct (rstrip_split (lstrip s)) as (w2 & Hl & _).
  exists w1, w2. unfold strip. by rewrite <- Hl.
Qed.

Lemma occurs_strip (s l : list N) : occurs s l = false → occurs (strip s) l = false.
Proof.
  intros H. destruct (occurs (strip s) l) eqn:E; [|done].
  destruct (strip_infix s) as (w1 & w2 & Hs).
  apply (occurs_app_l _ w2), (occurs_app_r w1) in E. rewrite <- Hs in E. congruence.
Qed.

Lemma first_piece_prefix (sep s : list N) :
  ∃ b, s = first_piece (split s sep) ++ b.
Proof.
  unfold split, first_piece. induction s as [|c s (b & IH)]; [by exists []|].
  rewrite split_scan_cons. destruct (startswith (c :: s) sep).
  - by exists (c :: s).
  - destruct (split_scan sep 0 s) as [|piece pieces] eqn:Es.
    + by apply split_scan_nonempty in Es.
    + exists b. simpl in *. by rewrite <- IH.
Qed.

(** X13: whatever the address, the document id read from it holds no [&]
    and no [ItemID=], and has no leading or trailing whitespace. *)
Theorem document_id_shape (href : list N) :
  (0x26 ∉ document_id_of href)
  ∧ occurs (document_id_of href) (py "ItemID=") = false
  ∧ strip (document_id_of href) = document_id_of href.
Proof.
  unfold document_id_of. split; [|split; [|apply strip_fixed]].
  - intros H. apply strip_incl in H. change (py "&") with [0x26] in H.
    by apply first_piece_no_char in H.
  - apply occurs_strip.
    set (l := last_piece (split href (py "ItemID="))).
    assert (Hl : occurs l (py "ItemID=") = false) by (by apply last_piece_free).
    destruct (first_piece_prefix (py "&") l) as (b & Hb).
    destruct (occurs (first_piece (split l (py "&"))) (py "ItemID=")) eqn:E; [|done].
    apply (occurs_app_l _ b) in E. rewrite <- Hb in E. congruence.
Qed.

(** ** The fields of the vbInfo text *)

Lemma last_such_snoc (sel : list N → bool) (lines : list (list N)) (l : list N) :
  last_such sel (lines ++ [l])
  = if sel l then Some l else last_such sel lines.
Proof.
  unfold last_such. rewrite filter_app.
  destruct (sel l) eqn:E.
  - rewrite filter_cons_True by done. rewrite filter_nil. by rewrite last_snoc.
  - rewrite filter_cons_False by (by rewrite E). rewrite filter_nil.
    by rewrite app_nil_r.
Qed.

Lemma foldl_info_line (lines : list (list N)) (info : gmap string (list N)) :
  let result := foldl info_line info lines in
  result !! "document_status"
  = match last_such sets_status lines with
    | Some l => Some (field_value status_label l)
    | None => info !! "document_status"
    end
  ∧ result !! "effective_date"
    = match last_such sets_effective lines with
      | Some l => Some (field_value effective_label l)
      | None => info !! "effective_date"
      end
  ∧ result !! "expired_date"
    = match last_such sets_expired lines with
      | Some l => Some (field_value expired_label l)
      | None => info !! "expired_date"
      end
  ∧ ∀ key, key ≠ "document_status" → key ≠ "effective_date" →
           key ≠ "expired_date" → result !! key = info !! key.
Proof.
  induction lines as [|l lines IH] using rev_ind; [done|].
  cbn zeta in *. rewrite foldl_app. cbn [foldl].
  rewrite !last_such_snoc.
  destruct IH as (H1 & H2 & H3 & H4).
  unfold info_line, sets_status, sets_effective, sets_expired.
  destruct (occurs l status_label); cbn [negb andb].
  { rewrite lookup_insert_eq, !lookup_insert_ne by done.
    repeat split; try done. intros key K1 K2 K3. rewrite lookup_insert_ne by done. auto. }
  destruct (occurs l effective_label); cbn [negb andb].
  { rewrite lookup_insert_eq, !lookup_insert_ne by done.
    repeat split; try done. intros key K1 K2 K3. rewrite lookup_insert_ne by done. auto. }
  destruct (occurs l expired_label); cbn [negb andb].
  { rewrite lookup_insert_eq, !lookup_insert_ne by done.
    repeat split; try done. intros key K1 K2 K3. rewrite lookup_insert_ne by done. auto. }
  done.
Qed.

(** X14: after the loop over the lines of the vbInfo text, each of the
    three fields holds the value read from the last line that sets it,
    where a line sets the first of status, effective date, expiry date
    whose label it contains (a line holding the status label never sets a
    date); a field that no line sets, and every other key, is left as it
    was. *)
Theorem vbinfo_fields_last_line_wins (plain_text : list N)
    (info : gmap string (list N)) :
  let lines := split plain_text nl in
  let result := vbinfo_fields plain_text info in
  result !! "document_status"
  = match last_such sets_status lines with
    | Some l => Some (field_value status_label l)
    | None => info !! "document_status"
    end
  ∧ result !! "effective_date"
    = match last_such sets_effective lines with
      | Some l => Some (field_value effective_label l)
      | None => info !! "effective_date"
      end
  ∧ result !! "expired_date"
    = match last_such sets_expired lines with
      | Some l => Some (field_value expired_label l)
      | None => info !! "expired_date"
      end
  ∧ ∀ key, key ≠ "document_status" → key ≠ "effective_date" →
           key ≠ "expired_date" → result !! key = info !! key.
Proof. apply foldl_info_line. Qed.

Lemma vbinfo_fields_last_line_wins_witness :
  vbinfo_fields vbinfo_example ∅ !! "document_title" = None
  ∧ vbinfo_fields vbinfo_example ∅ !! "document_status" = Some (py "Còn hiệu lực").
Proof.
  destruct (vbinfo_fields_last_line_wins vbinfo_example ∅) as (H1 & _ & _ & H4).
  split.
  - rewrite (H4 "document_title"); [reflexivity|discriminate..].
  - rewrite H1. vm_compute. reflexivity.
Defined.

(** X15: a value that the loop writes for a field never contains the
    label of that field again and has no leading or trailing whitespace:
    it is the trimmed text after the last occurrence of the label in its
    line. *)
Theorem field_value_after_last_label (label line : list N) :
  label ≠ [] →
  occurs (field_value label line) label = false
  ∧ strip (field_value label line) = field_value label line.
Proof.
  intros Hne. unfold field_value. split; [|apply strip_fixed].
  apply occurs_strip. by apply last_piece_free.
Qed.

Lemma field_value_after_last_label_witness :
  status_label ≠ []
  ∧ occurs (field_value status_label (py "Hiệu lực: Còn hiệu lực")) status_label = false.
Proof.
  assert (H : status_label ≠ []) by (vm_compute; discriminate).
  split; [exact H|].
  exact (proj1 (field_value_after_last_label status_label _ H)).
Defined.

(** ** The document title *)

Lemma occurs_char_inv (a : N) (s : list N) : occurs s [a] = false → a ∉ s.
Proof.
  induction s as [|c s IH]; [intros _; apply not_elem_of_nil|].
  cbn [occurs startswith]. intros [H1 H2]%orb_false_iff.
  apply not_elem_of_cons. split; [|by apply IH].
  intros ->. by rewrite N.eqb_refl in H1.
Qed.

Lemma replace_scan_incl (old : list N) (x : N) (s : list N) : ∀ n,
  x ∈ replace_scan old [] n s → x ∈ s.
Proof.
  induction s as [|c s IH]; intros n H; [done|].
  destruct n as [|n]; simpl in H.
  - destruct (startswith (c :: s) old).
    + apply list_elem_of_further. by apply (IH _ H).
    + apply elem_of_cons in H as [->|H]; [apply list_elem_of_here|].
      apply list_elem_of_further. by apply (IH _ H).
  - apply list_elem_of_further. by apply (IH _ H).
Qed.

(** X16: the document title read from the box-map text is its last line
    with the asterisks removed and trimmed: it holds no asterisk and no
    line break and has no leading or trailing whitespace. *)
Theorem document_title_shape (plain_text : list N) :
  document_title_of plain_text
  = strip (replace (last_piece (split plain_text nl)) (py "*") [])
  ∧ (0x2A ∉ document_title_of plain_text)
  ∧ (0x0A ∉ document_title_of plain_text)
  ∧ strip (document_title_of plain_text) = document_title_of plain_text.
Proof.
  assert (Heq : document_title_of plain_text
                = strip (replace (last_piece (split plain_text nl)) (py "*") [])).
  { unfold document_title_of. destruct (split plain_text nl) eqn:E; [|done].
    by apply split_scan_nonempty in E. }
  rewrite Heq. split; [done|]. split; [|split; [|apply strip_fixed]].
  - intros H. apply strip_incl in H. by apply (replace_scan_char_gone 0x2A) in H.
  - intros H. apply strip_incl in H. apply replace_scan_incl in H.
    revert H. apply occurs_char_inv. by apply (last_piece_free nl).
Qed.

(** ** The relationship loop *)

Lemma items_without_link (document_id title_text : list N) (li : list li_item) :
  ∀ main_text item_id,
    Forall (λ item, is_diagram_link item = false) li →
    foldl (item_step document_id title_text) (main_text, item_id) li
    = (main_text ++ plain_text_of li, item_id).
Proof.
  induction li as [|item li IH]; intros main_text item_id Hli; simpl.
  - by rewrite app_nil_r.
  - apply Forall_cons in Hli as [Hitem Hli].
    destruct item as [s|name classes text href].
    + simpl. rewrite (IH _ _ Hli). by rewrite <- app_assoc.
    + unfold item_step at 2. rewrite Hitem. simpl. by rewrite (IH _ _ Hli).
Qed.

Lemma li_step_unbound (document_id title_text : list N) (entries : list relation)
    (li : list li_item) :
  Forall (λ item, is_diagram_link item = false) li → plain_text_of li ≠ [] →
  li_step document_id title_text (entries, None) li = Exception UnboundLocalError.
Proof.
  intros Hli Htext. unfold li_step. cbn [fst snd].
  rewrite (items_without_link _ _ _ _ _ Hli). cbn [app].
  by destruct (plain_text_of li).
Qed.

(** X17: an [li] that has text but no diagram link does not get an id of
    its own: its entry takes the id left in [item_id] by the last diagram
    link met before it, in an earlier [li] or an earlier category. *)
Theorem li_without_link_takes_previous_id (document_id title_text : list N)
    (entries : list relation) (previous_id : list N) (li : list li_item) :
  Forall (λ item, is_diagram_link item = false) li → plain_text_of li ≠ [] →
  li_step document_id title_text (entries, Some previous_id) li
  = Normal (entries
            ++ [{| relation_title :=
                     strip (re_sub whitespace_regex (py " ") (plain_text_of li));
                   relation_id := previous_id |}],
            Some previous_id).
Proof.
  intros Hli Htext. unfold li_step. cbn [fst snd].
  rewrite (items_without_link _ _ _ _ _ Hli). cbn [app].
  by destruct (plain_text_of li).
Qed.

Lemma li_without_link_takes_previous_id_witness :
  li_step (py "32801") (py "Văn bản hiện thời") ([], Some (py "111"))
    [TextNode (py " Thông tư 01 ")]
  = Normal ([{| relation_title := py "Thông tư 01"; relation_id := py "111" |}],
            Some (py "111")).
Proof.
  rewrite (li_without_link_takes_previous_id (py "32801") (py "Văn bản hiện thời")
             [] (py "111") [TextNode (py " Thông tư 01 ")]).
  - vm_compute. reflexivity.
  - repeat constructor.
  - vm_compute. discriminate.
Defined.

(** X18: [extract_info] raises [UnboundLocalError] when the diagram page
    is retrieved and the first [li] of its first child (a child with a
    title and a content div) has text but no diagram link: the entry is
    built from [item_id] before anything was assigned to it. *)
Theorem extract_info_unbound_item_id (httpx_get : list N → httpx_reply)
    (parse_luocdo : list N → option (list luocdo_child)) (soup : InfoSoup)
    (href : list N) (child : luocdo_child) (children : list luocdo_child)
    (links : list title_link) (li : list li_item) (list_items : list (list li_item)) :
  header_href soup = Some href →
  document_id_of href ≠ [] →
  crawl_luocdo httpx_get (document_id_of href) ≠ [] →
  parse_luocdo (crawl_luocdo httpx_get (document_id_of href)) = Some (child :: children) →
  child_title child = Some links → title_text_of links ≠ [] →
  child_content child = Some (li :: list_items) →
  Forall (λ item, is_diagram_link item = false) li → plain_text_of li ≠ [] →
  extract_info httpx_get parse_luocdo soup = Exception UnboundLocalError.
Proof.
  intros Hhref Hid Hhtml Hparse Htitle Htext Hcontent Hli Hplain.
  unfold extract_info, info_fields. rewrite Hhref. cbn zeta.
  rewrite lookup_insert_eq. cbn [default from_option Datatypes.id].
  destruct (document_id_of href) as [|c id] eqn:Eid; [done|].
  revert Hhtml Hparse.
  destruct (crawl_luocdo httpx_get (c :: id)) as [|h html] eqn:Ehtml; [done|].
  intros _ Hparse.
  rewrite Hparse. cbn [for_each]. unfold child_step at 1.
  rewrite Htitle, Hcontent.
  destruct (title_text_of links) as [|t title_text]; [done|].
  cbn [for_each]. by rewrite (li_step_unbound _ _ _ _ Hli Hplain).
Qed.

Lemma extract_info_unbound_item_id_witness :
  extract_info (λ _, Response false (py "<html>diagram</html>"))
    (λ _, Some unlinked_diagram) linked_soup
  = Exception UnboundLocalError.
Proof.
  apply (extract_info_unbound_item_id _ _ linked_soup
           (py "/Pages/vbpq-toanvan.aspx?ItemID=32801&Keyword=")
           {| child_title := Some [ {| link_class := None;
                                       link_text := py "Văn bản hiện thời" |} ];
              child_content := Some [ [ TextNode (py "Thông tư 01/2020") ] ] |}
           [] [ {| link_class := None; link_text := py "Văn bản hiện thời" |} ]
           [ TextNode (py "Thông tư 01/2020") ] []).
  - reflexivity.
  - vm_compute. discriminate.
  - vm_compute. discriminate.
  - reflexivity.
  - reflexivity.
  - vm_compute. discriminate.
  - reflexivity.
  - repeat constructor.
  - vm_compute. discriminate.
Defined.

Lemma item_step_keeps_id (document_id title_text : list N) (item : li_item)
    (st : list N * option (list N)) :
  is_Some st.2 → is_Some (item_step document_id title_text st item).2.
Proof.
  intros H. destruct item as [s|name classes text href]; simpl; [done|].
  by destruct (bool_decide (name = "a") && bool_decide ("jTips" ∈ classes)).
Qed.

Lemma items_keep_id (document_id title_text : list N) (li : list li_item) :
  ∀ st, is_Some st.2 → is_Some (foldl (item_step document_id title_text) st li).2.
Proof.
  induction li as [|item li IH]; intros st H; [done|].
  simpl. by apply IH, item_step_keeps_id.
Qed.

Lemma items_with_link (document_id title_text : list N) (li : list li_item) :
  ∀ st, Exists (λ item, is_diagram_link item = true) li →
        is_Some (foldl (item_step document_id title_text) st li).2.
Proof.
  induction li as [|item li IH]; intros st H.
  - by apply Exists_nil in H.
  - simpl. apply Exists_cons in H as [H|H]; [|by apply IH].
    apply items_keep_id. destruct item as [s|name classes text href]; [done|].
    unfold item_step. rewrite H. by eexists.
Qed.

Lemma li_step_linked (document_id title_text : list N)
    (st : list relation * option (list N)) (li : list li_item) :
  Exists (λ item, is_diagram_link item = true) li →
  ∃ r, li_step document_id title_text st li = Normal r.
Proof.
  intros H. unfold li_step.
  pose proof (items_with_link document_id title_text li ([], st.2) H) as Hid.
  destruct (foldl (item_step document_id title_text) ([], st.2) li)
    as [main_text item_id].
  destruct Hid as [i Hi]. simpl in Hi. subst item_id.
  destruct main_text; by eexists.
Qed.

Lemma list_items_linked (document_id title_text : list N)
    (list_items : list (list li_item)) :
  Forall (Exists (λ item, is_diagram_link item = true)) list_items →
  ∀ st, ∃ r, for_each (li_step document_id title_text) st list_items = Normal r.
Proof.
  induction 1 as [|li list_items Hli Hall IH]; intros st; [by eexists|].
  cbn [for_each]. destruct (li_step_linked document_id title_text st li Hli) as [r ->].
  apply IH.
Qed.

Lemma children_linked (document_id : list N) (children : list luocdo_child) :
  Forall all_linked children →
  ∀ st, ∃ r, for_each (child_step document_id) st children = Normal r.
Proof.
  induction 1 as [|child children Hchild Hall IH]; intros st; [by eexists|].
  cbn [for_each]. unfold child_step at 1.
  destruct (child_title child) as [links|]; [|apply IH].
  destruct (title_text_of links) as [|t title_text]; [apply IH|].
  destruct (child_content child) as [list_items|] eqn:E; [|apply IH].
  destruct (list_items_linked document_id (t :: title_text) list_items
              (Hchild _ E) ([], st.2)) as [r ->].
  apply IH.
Qed.

(** X19: [extract_info] completes without raising whenever every [li] of
    the diagram page holds a diagram link (and in particular when no
    diagram page is retrieved). *)
Theorem extract_info_completes (httpx_get : list N → httpx_reply)
    (parse_luocdo : list N → option (list luocdo_child)) (soup : InfoSoup) :
  (∀ html children, parse_luocdo html = Some children → Forall all_linked children) →
  ∃ info, extract_info httpx_get parse_luocdo soup = Normal info.
Proof.
  intros Hall. unfold extract_info. cbn zeta.
  match goal with
  | |- context [match ?h with [] => Normal _ | _ :: _ => _ end] =>
    destruct h as [|c html] eqn:Eh; [by eexists|]
  end.
  destruct (parse_luocdo (c :: html)) as [children|] eqn:Ep; [|by eexists].
  match goal with
  | |- context [for_each (child_step ?d) ?st children] =>
    destruct (children_linked d children (Hall _ _ Ep) st) as [r ->]
  end.
  by eexists.
Qed.

Lemma extract_info_completes_witness :
  ∃ info, extract_info (λ _, Fails RequestError) (λ _, None) linked_soup = Normal info.
Proof.
  apply (extract_info_completes (λ _, Fails RequestError) (λ _, None) linked_soup).
  intros html children H. discriminate H.
Defined.

(** ** The result envelope *)

Lemma extract_info_fields (httpx_get : list N → httpx_reply)
    (parse_luocdo : list N → option (list luocdo_child)) (soup : InfoSoup)
    (info : Info) :
  extract_info httpx_get parse_luocdo soup = Normal info →
  fields info = info_fields soup.
Proof.
  unfold extract_info. cbn zeta. intros H.
  repeat match type of H with
         | match ?x with _ => _ end = _ => destruct x eqn:?; try discriminate H
         | bind ?x _ = _ => destruct x eqn:?; try discriminate H; cbn [bind] in H
         end;
    by injection H as <-.
Qed.

Lemma info_fields_keys (soup : InfoSoup) (key : string) :
  key ≠ "document_status" → key ≠ "effective_date" → key ≠ "expired_date" →
  key ≠ "document_title" → key ≠ "document_id" →
  info_fields soup !! key = None.
Proof.
  intros K1 K2 K3 K4 K5. unfold info_fields. cbn zeta.
  assert (H1 : match vbInfo_text soup with
               | Some text => vbinfo_fields (strip text) ∅
               | None => ∅
               end !! key = None).
  { destruct (vbInfo_text soup) as [text|]; [|done]. unfold vbinfo_fields.
    destruct (foldl_info_line (split (strip text) nl) ∅) as (_ & _ & _ & Hk).
    by rewrite Hk. }
  destruct (header_href soup), (box_map_text soup);
    by rewrite ?lookup_insert_ne by done.
Qed.

(** X20: in the [document_info] that [parse] builds from a completed
    [extract_info], the document date is always the empty string
    ([extract_info] never writes that key); the document id is the one
    read from the header link, and the document title the one read from
    the box-map text, each the empty string when its element is
    missing. *)
Theorem document_info_defaults (httpx_get : list N → httpx_reply)
    (parse_luocdo : list N → option (list luocdo_child)) (soup : InfoSoup)
    (info : Info) :
  extract_info httpx_get parse_luocdo soup = Normal info →
  document_info info !! "document_date" = Some []
  ∧ document_info info !! "document_id"
    = Some (match header_href soup with
            | Some href => document_id_of href
            | None => []
            end)
  ∧ document_info info !! "document_title"
    = Some (match box_map_text soup with
            | Some text => document_title_of (strip text)
            | None => []
            end).
Proof.
  intros H. apply extract_info_fields in H.
  unfold document_info. cbn zeta. rewrite H.
  rewrite lookup_insert_eq, !lookup_insert_ne by done.
  rewrite lookup_insert_eq, !lookup_insert_ne by done.
  rewrite lookup_insert_eq.
  rewrite (info_fields_keys soup "document_date") by done.
  split; [done|].
  assert (Hv : ∀ key, key ≠ "document_status" → key ≠ "effective_date" →
                 key ≠ "expired_date" →
                 match vbInfo_text soup with
                 | Some text => vbinfo_fields (strip text) ∅
                 | None => ∅
                 end !! key = None).
  { intros key K1 K2 K3. destruct (vbInfo_text soup) as [text|]; [|done].
    unfold vbinfo_fields.
    destruct (foldl_info_line (split (strip text) nl) ∅) as (_ & _ & _ & Hk).
    by rewrite Hk. }
  unfold info_fields. cbn zeta.
  destruct (header_href soup) as [href|], (box_map_text soup) as [text|];
    rewrite ?lookup_insert_eq, ?lookup_insert_ne by done;
    rewrite ?lookup_insert_eq, ?Hv by done; done.
Qed.

Lemma document_info_defaults_witness :
  ∃ info,
    extract_info (λ _, Fails RequestError) (λ _, None) linked_soup = Normal info
    ∧ document_info info !! "document_date" = Some [].
Proof.
  destruct (extract_info (λ _, Fails RequestError) (λ _, None) linked_soup)
    as [info|e] eqn:E; [|vm_compute in E; discriminate E].
  exists info. split; [reflexivity|].
  exact (proj1 (document_info_defaults _ _ _ _ E)).
Defined.

(** ** Retrieval failures *)

(** X21: when the request for the page raises, is answered with a status
    that [raise_for_status] rejects, or is answered with an empty body,
    [crawl_toanvan] yields the empty string and [parse] returns the empty
    dictionary without raising and without writing any file. *)
Theorem parse_without_page {Info : Type} (httpx_get : list N → httpx_reply)
    (parse_html : list N → BeautifulSoup) (extract : BeautifulSoup → completion Info)
    (id : string) (fs : gmap string (list N)) :
  (∀ text, httpx_get (toanvan_url (py id)) = Response false text → text = []) →
  crawl_toanvan httpx_get (py id) = []
  ∧ parse (λ i, crawl_toanvan httpx_get (py i)) parse_html extract id fs
    = (Return EmptyDict, fs).
Proof.
  intros H.
  assert (Hc : crawl_toanvan httpx_get (py id) = []).
  { unfold crawl_toanvan, crawl.
    destruct (httpx_get (toanvan_url (py id))) as [[|] text|[|]]; try done.
    by apply H. }
  split; [done|]. unfold parse. by rewrite Hc.
Qed.

Lemma parse_without_page_witness :
  parse (λ i, crawl_toanvan (λ _, Fails RequestError) (py i))
    (λ _, {| find_div := λ _, None |}) (λ _, Normal tt) "32801" ∅
  = (Return EmptyDict, ∅).
Proof.
  apply (parse_without_page (λ _, Fails RequestError)
           (λ _, {| find_div := λ _, None |}) (λ _, Normal tt) "32801" ∅).
  intros text H. discriminate H.
Defined.

Lemma parse_patterns_never_empty_witness :
  whitespace_regex ∈ parse_patterns
  ∧ match_here whitespace_regex (py "  x") = Some (py "  ", ∅)
  ∧ py "  " ≠ [].
Proof.
  assert (H1 : whitespace_regex ∈ parse_patterns).
  { unfold parse_patterns. do 5 apply list_elem_of_further. apply list_elem_of_here. }
  assert (H2 : match_here whitespace_regex (py "  x") = Some (py "  ", ∅))
    by (vm_compute; reflexivity).
  split; [exact H1|]. split; [exact H2|].
  exact (parse_patterns_never_empty whitespace_regex (py "  x") (py "  ") ∅ H1 H2).
Defined.

(** ** Titles, chapters and levels by the markers of the text *)

Lemma section_marker_occurs_detected (text : list N) (c : N) :
  section_marker_occurs text → findall muc_regex (text ++ [c]) ≠ [].
Proof.
  intros (pre & ws & d & tail & -> & Hws & Hd).
  apply section_detected_iff.
  destruct tail as [|t tail].
  - exists pre, ws, d, c, []. split; [|done]. by rewrite <- !app_assoc.
  - exists pre, ws, d, t, (tail ++ [c]). split; [|done]. by rewrite <- !app_assoc.
Qed.

Lemma article_marker_occurs_detected (text : list N) (c : N) :
  article_marker_occurs text → findall dieu_regex (text ++ [c]) ≠ [].
Proof.
  intros (pre & ws & ds & bs & tail & -> & Hws & Hds & Hbs).
  apply dieu_detected_iff.
  destruct tail as [|t tail].
  - exists pre, ws, ds, bs, c, []. split; [|done]. by rewrite <- !app_assoc.
  - exists pre, ws, ds, bs, t, (tail ++ [c]). split; [|done].
    by rewrite <- !app_assoc.
Qed.

(** C1 (the code departs from it): [split_title] takes every occurrence
    of the cleaned title off the body, not the first one alone.  On the
    body [A / Điều 1. A] the title is [A] and the remainder is
    [Điều 1.]: the [A] of the article text is gone as well, where the
    removal of the first occurrence alone leaves [Điều 1. A]; so the
    chapter with that body ends with no article at all, and in a chapter
    titled [Quy định chung] the article [Điều 1. Các Quy định chung áp
    dụng.] comes out as [Điều 1. Các  áp dụng.]. *)
Theorem title_removal_reaches_article_text :
  split_title recurring_title_body = (py "A", py "Điều 1.")
  ∧ strip (remove_first recurring_title_body (py "A")) = py "Điều 1. A"
  ∧ segment recurring_title_chapter
    = [Division CHAPTER (py "Chương I") (py "A") []]
  ∧ segment recurring_words_chapter
    = [Division CHAPTER (py "Chương I") (py "Quy định chung")
         [Leaf ARTICLE (py "Điều 1. Các  áp dụng.")]].
Proof. vm_compute. repeat split; reflexivity. Qed.




(** C5, refuted as stated: in [Điều 1. a / Mục 2] no chapter is found
    and a section marker exists, [Mục 2], yet the top-level node is an
    Article node. *)
Lemma section_marker_without_top_level_section :
  ¬ (∀ content : list N,
       findall chuong_regex content = [] →
       section_marker_occurs content →
       Forall (λ n, node_type n = SECTION) (segment content)).
Proof.
  intros H.
  assert (Hn : Forall (λ n, node_type n = SECTION) (segment section_marker_at_end)).
  { apply H; [vm_compute; reflexivity|].
    exists (py "Điều 1. a" ++ nl), [0x20], 0x32, [].
    split; [vm_compute; reflexivity|]. split; [|reflexivity].
    constructor; [reflexivity|constructor]. }
  assert (E : segment section_marker_at_end = [Leaf ARTICLE section_marker_at_end])
    by (vm_compute; reflexivity).
  rewrite E in Hn. apply Forall_inv in Hn. discriminate Hn.
Qed.

(** C5, as the code has it: when the chapter matcher finds no chapter,
    every top-level node is a Section or an Article and none is a
    Chapter.  The top-level kind follows the markers of the text: with a
    chapter marker (the keyword, optional whitespace, a roman-numeral
    letter) there are top-level nodes and all are Chapters; with no
    chapter marker but a section marker that is followed by at least one
    more character, there are top-level nodes and all are Sections; with
    neither (also when the only section marker ends the text), all are
    Articles. *)
Theorem top_level_kind_by_markers (content : list N) :
  (findall chuong_regex content = [] →
   Forall (λ n, node_type n ≠ CHAPTER
                ∧ (node_type n = SECTION ∨ node_type n = ARTICLE))
     (segment content))
  ∧ (chapter_marker_in content →
     segment content ≠ []
     ∧ Forall (λ n, node_type n = CHAPTER) (segment content))
  ∧ (¬ chapter_marker_in content → section_marker_in content →
     segment content ≠ []
     ∧ Forall (λ n, node_type n = SECTION) (segment content))
  ∧ (¬ chapter_marker_in content → ¬ section_marker_in content →
     Forall (λ n, node_type n = ARTICLE) (segment content)).
Proof.
  pose proof (chapter_detected_iff content) as Hc.
  pose proof (section_detected_iff content) as Hs.
  unfold chapter_marker_in, section_marker_in, segment.
  destruct (findall chuong_regex content) as [|c0 cs].
  - destruct (findall muc_regex content) as [|m0 ms].
    + split.
      { intros _. apply Forall_map, Forall_true. intros d. simpl.
        split; [done|by right]. }
      split; [intros H; by apply Hc in H|].
      split; [intros _ H; by apply Hs in H|].
      intros _ _. apply dieu_nodes_are_articles.
    + assert (Hsec : Forall (λ n, node_type n = SECTION) (map muc_node (m0 :: ms))).
      { apply Forall_map, Forall_true. intros mu.
        by destruct (muc_node_shape mu) as (title & body & -> & _). }
      split.
      { intros _. eapply Forall_impl; [exact Hsec|].
        intros n ->. split; [done|by left]. }
      split; [intros H; by apply Hc in H|].
      split; [intros _ _; by split|].
      intros _ H. exfalso. apply H. by apply Hs.
  - split; [done|].
    assert (Hchap : Forall (λ n, node_type n = CHAPTER) (map chuong_node (c0 :: cs))).
    { apply Forall_map, Forall_true. intros ch.
      by destruct (chuong_node_shape ch) as (title & body & _ & ->). }
    split; [intros _; by split|].
    split; intros H; exfalso; apply H; by apply Hc.
Qed.

Lemma top_level_kind_by_markers_witness :
  ¬ chapter_marker_in section_alone
  ∧ section_marker_in section_alone
  ∧ segment section_alone ≠ []
  ∧ Forall (λ n, node_type n = SECTION) (segment section_alone).
Proof.
  assert (Hc : ¬ chapter_marker_in section_alone).
  { unfold chapter_marker_in. intros H. apply chapter_detected_iff in H.
    vm_compute in H. by apply H. }
  assert (Hs : section_marker_in section_alone).
  { exists [], [0x20], 0x31, 0x0A, (py "Phạm vi" ++ nl ++ py "Điều 3. Ba.").
    split; [vm_compute; reflexivity|]. split; [|reflexivity].
    constructor; [reflexivity|constructor]. }
  split; [exact Hc|]. split; [exact Hs|].
  exact (proj1 (proj2 (proj2 (top_level_kind_by_markers section_alone))) Hc Hs).
Defined.

(** C8, refuted as stated: the body [Tên / Điều 5 x] holds no article
    marker (the keyword has no period after its number) and no section
    marker, and the title splitter gives it the title [Tên]. *)
Lemma title_without_article_or_section_marker :
  ¬ (∀ body : list N,
       ¬ article_marker_occurs body → ¬ section_marker_occurs body →
       split_title body = ([], strip body)).
Proof.
  intros H.
  assert (Ha : ¬ article_marker_occurs unpunctuated_article_body).
  { intros Ha. apply (article_marker_occurs_detected _ 0x78) in Ha.
    vm_compute in Ha. by apply Ha. }
  assert (Hs : ¬ section_marker_occurs unpunctuated_article_body).
  { intros Hs. apply (section_marker_occurs_detected _ 0x78) in Hs.
    vm_compute in Hs. by apply Hs. }
  specialize (H unpunctuated_article_body Ha Hs).
  vm_compute in H. discriminate H.
Qed.
